(** * Engine reporting: the trace tree builder and the per-request extension

    A shallow embedding of
    - [packages/apollo-engine-reporting/src/treeBuilder.ts]
      (class [EngineReportingTreeBuilder]), and
    - the per-request [EngineReportingExtension] (its [requestDidStart],
      [didEncounterErrors], [rewriteError] and [addError] methods),
    followed by the properties of the two that the specification states.

    JavaScript objects that are shared and mutated in place ([Trace.Node]
    instances referenced from the builder's map, from [rootNode] and from the
    [child] arrays of other nodes) live in an explicit store and are named by
    their index in it.  Exceptions are outcomes of a state-and-exception
    monad, so that what a method did before it threw stays visible. *)

From Stdlib Require Import ZArith NArith Ascii.
From stdpp Require Import base option list gmap strings pretty.

Local Open Scope Z_scope.
Set Warnings "-register-all".

(* ===================================================================== *)
(** ** JavaScript primitives used by the two files *)
(* ===================================================================== *)

Module Js.

(** An element of a response path: [string | number].  Array indices are
    non-negative integers. *)
Inductive Key :=
  | KString (s : string)
  | KNumber (n : N).

Global Instance Key_eq_dec : EqDecision Key.
Proof. solve_decision. Defined.

(** [String(k)], the conversion [Array.prototype.join] applies to each
    element: a string is itself, an index prints in decimal. *)
Definition key_to_string (k : Key) : string :=
  match k with
  | KString s => s
  | KNumber n => pretty n
  end.

(** [xs.join(sep)]: the empty string for the empty array, otherwise the
    first element followed by [sep] and the next element, repeatedly. *)
Definition join (sep : string) (xs : list Key) : string :=
  match xs with
  | [] => ""
  | x :: rest =>
      foldl (λ acc y, acc +:+ sep +:+ key_to_string y) (key_to_string x) rest
  end.

(** [c.toLowerCase()] on one ASCII character. *)
Definition lower_ascii (c : ascii) : ascii :=
  let n := N_of_ascii c in
  if ((65 <=? n) && (n <=? 90))%N then ascii_of_N (n + 32) else c.

(** [s.toLowerCase()]; header names are ASCII tokens. *)
Fixpoint toLowerCase (s : string) : string :=
  match s with
  | EmptyString => EmptyString
  | String c s' => String (lower_ascii c) (toLowerCase s')
  end.

(** Values handed to [JSON.stringify], up to what it makes of them.
    [JUndefined] is [undefined], a function or a symbol, for which there is
    no JSON text.  A number is given by the text [JSON.stringify] prints
    for it: [Number::toString] of a finite number (plain decimal or
    exponent form), [null] for [NaN] and the infinities.  An object is
    given by its own enumerable properties in enumeration order, an object
    with a [toJSON] method by what that method returns.  [JCircular] stands
    for a value on which [JSON.stringify] throws a [TypeError]: an object
    graph that contains itself, or a [BigInt]. *)
Inductive Value :=
  | JUndefined
  | JNull
  | JBool (b : bool)
  | JNumber (text : string)
  | JString (s : string)
  | JArray (items : list Value)
  | JObject (props : list (string * Value))
  | JCircular.

(** What a call of [JSON.stringify] gives: a text, [undefined], or a
    thrown [TypeError]. *)
Inductive Json :=
  | Text (text : string)
  | Undefined
  | Thrown.

(** The text of a call that gave one. *)
Definition text_of (j : Json) : string :=
  match j with
  | Text text => text
  | _ => ""
  end.

Definition quote : ascii := ascii_of_nat 34.
Definition backslash : ascii := ascii_of_nat 92.

Definition hex_digit (n : N) : ascii :=
  if (n <? 10)%N then ascii_of_N (48 + n) else ascii_of_N (87 + n).

(** The escape of one character inside a JSON string literal. *)
Definition escape_char (c : ascii) : string :=
  let n := N_of_ascii c in
  if (n =? 34)%N then String backslash (String quote "")
  else if (n =? 92)%N then String backslash (String backslash "")
  else if (n =? 8)%N then String backslash "b"
  else if (n =? 12)%N then String backslash "f"
  else if (n =? 10)%N then String backslash "n"
  else if (n =? 13)%N then String backslash "r"
  else if (n =? 9)%N then String backslash "t"
  else if (n <? 32)%N then
    String backslash
      ("u00" +:+ String (hex_digit (n / 16)) (String (hex_digit (n mod 16)) ""))
  else String c "".

Fixpoint escape (s : string) : string :=
  match s with
  | EmptyString => EmptyString
  | String c s' => escape_char c +:+ escape s'
  end.

(** [JSON.stringify(s)] for a string [s]. *)
Definition quote_string (s : string) : string :=
  String quote (escape s +:+ String quote "").

Definition join_strings (sep : string) (xs : list string) : string :=
  match xs with
  | [] => ""
  | x :: rest => foldl (λ acc y, acc +:+ sep +:+ y) x rest
  end.

(** [JSON.stringify(v)].  An element of an array that has no text prints
    as [null]; a property of an object whose value has no text is left
    out. *)
Fixpoint stringify (v : Value) : Json :=
  match v with
  | JUndefined => Undefined
  | JNull => Text "null"
  | JBool true => Text "true"
  | JBool false => Text "false"
  | JNumber text => Text text
  | JString s => Text (quote_string s)
  | JArray items =>
      let fix go (l : list Value) : option (list string) :=
        match l with
        | [] => Some []
        | x :: l' =>
            match stringify x, go l' with
            | Text sx, Some sl => Some (sx :: sl)
            | Undefined, Some sl => Some ("null" :: sl)
            | _, _ => None
            end
        end in
      match go items with
      | Some parts => Text ("[" +:+ join_strings "," parts +:+ "]")
      | None => Thrown
      end
  | JObject props =>
      let fix go (l : list (string * Value)) : option (list string) :=
        match l with
        | [] => Some []
        | (k, x) :: l' =>
            match stringify x, go l' with
            | Text sx, Some sl => Some ((quote_string k +:+ ":" +:+ sx) :: sl)
            | Undefined, Some sl => Some sl
            | _, _ => None
            end
        end in
      match go props with
      | Some parts => Text ("{" +:+ join_strings "," parts +:+ "}")
      | None => Thrown
      end
  | JCircular => Thrown
  end.

(** The double nearest to an integer, ties going to the even mantissa: the
    integer itself up to 2^53 in absolute value, beyond that the nearest
    multiple of the power of two that leaves 53 significant bits.  (The
    integers here stay far below the largest double.) *)
Definition roundToDouble (x : Z) : Z :=
  let a := Z.abs x in
  if a <? 2 ^ 53 then x
  else
    let e := Z.log2 a - 52 in
    let q := a / 2 ^ e in
    let r := a mod 2 ^ e in
    let half := 2 ^ (e - 1) in
    let q' := if r <? half then q
              else if half <? r then q + 1
              else if Z.even q then q else q + 1 in
    Z.sgn x * (q' * 2 ^ e).

(** A plain object used as a map from names to objects (the map fields of
    the protobuf classes start as [{}]): its own properties, and the
    object that has become its prototype, if one has. *)
Record Dict (V : Type) := mkDict {
  own : gmap string V;
  proto : option V
}.
Global Arguments mkDict {V} own proto.
Global Arguments own {V} d.
Global Arguments proto {V} d.

(** [{}] *)
Definition empty_Dict {V} : Dict V := {| own := ∅; proto := None |}.

(** [d[key] = v] for an object [v].  Every name creates or overwrites an
    own property, except [__proto__]: that one is the accessor inherited
    from [Object.prototype], whose setter makes [v] the prototype of [d]
    and creates no property. *)
Definition assign {V} (key : string) (v : V) (d : Dict V) : Dict V :=
  if decide (key = "__proto__") then {| own := own d; proto := Some v |}
  else {| own := <[key := v]> (own d); proto := proto d |}.

(** [d[key] = v] for a string or [undefined] [v], on an object whose
    prototype is [Object.prototype]: the setter of [__proto__] ignores a
    value that is neither an object nor [null], so that assignment does
    nothing. *)
Definition assign_primitive {V} (key : string) (v : V) (d : gmap string V) :
    gmap string V :=
  if decide (key = "__proto__") then d else <[key := v]> d.

(** What a method call leaves behind: a returned value or a thrown
    exception, each with the state at that point. *)
Inductive Exn :=
  | Error (msg : string)
  | TypeError.

Inductive Outcome (S A : Type) :=
  | Return (a : A) (s : S)
  | Throw (e : Exn) (s : S).
Global Arguments Return {S A} a s.
Global Arguments Throw {S A} e s.

Definition M (S A : Type) : Type := S → Outcome S A.

Definition ret {S A} (a : A) : M S A := λ s, Return a s.
Definition throw {S A} (e : Exn) : M S A := λ s, Throw e s.
Definition bind {S A B} (m : M S A) (k : A → M S B) : M S B :=
  λ s, match m s with
       | Return a s' => k a s'
       | Throw e s' => Throw e s'
       end.
Definition get {S} : M S S := λ s, Return s s.
Definition modify {S} (f : S → S) : M S unit := λ s, Return tt (f s).

Definition final_state {S A} (o : Outcome S A) : S :=
  match o with
  | Return _ s => s
  | Throw _ s => s
  end.

Definition threw {S A} (o : Outcome S A) : bool :=
  match o with
  | Return _ _ => false
  | Throw _ _ => true
  end.

End Js.

Export Js.

Global Instance M_ret {S} : MRet (M S) := λ A, @Js.ret S A.
Global Instance M_bind {S} : MBind (M S) := λ A B k m, Js.bind m k.

(* ===================================================================== *)
(** ** treeBuilder.ts *)
(* ===================================================================== *)

Module TreeBuilder.

(** [process.hrtime()]: seconds and nanoseconds of a monotonic clock. *)
Definition HrTime : Type := Z * Z.

(** [process.hrtime(prev)]: the reading [now] itself when [prev] is
    undefined, otherwise the time elapsed since [prev], with the nanosecond
    part kept in [0, 1e9). *)
Definition process_hrtime (now : HrTime) (prev : option HrTime) : HrTime :=
  match prev with
  | None => now
  | Some t0 =>
      let secs := fst now - fst t0 in
      let nanos := snd now - snd t0 in
      if nanos <? 0 then (secs - 1, nanos + 1000000000) else (secs, nanos)
  end.

(** [hrtime[0] * 1e9 + hrtime[1]], in doubles: the product is rounded,
    and then the sum. *)
Definition durationHrTimeToNanos (hrtime : HrTime) : Z :=
  roundToDouble (roundToDouble (fst hrtime * 1000000000) + snd hrtime).

(** graphql's [ResponsePath]: [{ prev: ResponsePath | undefined, key }]. *)
Inductive ResponsePath :=
  | Path (prev : option ResponsePath) (key : Key).

Definition prev (p : ResponsePath) : option ResponsePath :=
  match p with Path pr _ => pr end.
Definition key (p : ResponsePath) : Key :=
  match p with Path _ k => k end.

(** graphql's [responsePathAsArray]: push the keys while walking [prev],
    then reverse. *)
Fixpoint flattened (p : ResponsePath) : list Key :=
  match p with
  | Path None k => [k]
  | Path (Some pp) k => k :: flattened pp
  end.

Definition responsePathAsArray (p : ResponsePath) : list Key :=
  reverse (flattened p).

Definition responsePathAsString (p : option ResponsePath) : string :=
  match p with
  | None => ""
  | Some p => join "." (responsePathAsArray p)
  end.

Definition rootResponsePath : string := responsePathAsString None.

(** [Trace.Location] and [Trace.Error] of the protobuf package. *)
Record Location := mkLocation { line : Z; column : Z }.

Record TraceError := mkTraceError {
  message : string;
  location : list Location;
  json : string
}.

(** A reference to a [Trace.Node] object: its index in the store. *)
Abbreviation ref := nat (only parsing).

(** [Trace.Node] of the protobuf package, with the fields the builder
    touches.  [child] holds references: the same object is reachable from
    its parent's array and from the builder's map. *)
Record Node := mkNode {
  fieldName : option string;
  index : option N;
  type : string;
  parentType : string;
  startTime : Z;
  endTime : Z;
  error : list TraceError;
  child : list ref
}.

(** [new Trace.Node()] *)
Definition new_Node : Node :=
  {| fieldName := None; index := None; type := ""; parentType := "";
     startTime := 0; endTime := 0; error := []; child := [] |}.

Definition set_fieldName (v : string) (n : Node) : Node :=
  mkNode (Some v) (index n) (type n) (parentType n) (startTime n) (endTime n)
         (error n) (child n).
Definition set_index (v : N) (n : Node) : Node :=
  mkNode (fieldName n) (Some v) (type n) (parentType n) (startTime n) (endTime n)
         (error n) (child n).
Definition set_type (v : string) (n : Node) : Node :=
  mkNode (fieldName n) (index n) v (parentType n) (startTime n) (endTime n)
         (error n) (child n).
Definition set_parentType (v : string) (n : Node) : Node :=
  mkNode (fieldName n) (index n) (type n) v (startTime n) (endTime n)
         (error n) (child n).
Definition set_startTime (v : Z) (n : Node) : Node :=
  mkNode (fieldName n) (index n) (type n) (parentType n) v (endTime n)
         (error n) (child n).
Definition set_endTime (v : Z) (n : Node) : Node :=
  mkNode (fieldName n) (index n) (type n) (parentType n) (startTime n) v
         (error n) (child n).
Definition push_error (e : TraceError) (n : Node) : Node :=
  mkNode (fieldName n) (index n) (type n) (parentType n) (startTime n) (endTime n)
         (error n ++ [e]) (child n).
Definition push_child (c : ref) (n : Node) : Node :=
  mkNode (fieldName n) (index n) (type n) (parentType n) (startTime n) (endTime n)
         (error n) (child n ++ [c]).

(** The builder object together with the [Trace.Node] objects it created. *)
Record Builder := mkBuilder {
  heap : list Node;
  startHrTime : option HrTime;
  stopped : bool;
  rootNode : ref;
  nodes : gmap string ref
}.

Definition set_heap (h : list Node) (b : Builder) : Builder :=
  mkBuilder h (startHrTime b) (stopped b) (rootNode b) (nodes b).
Definition set_startHrTime (t : option HrTime) (b : Builder) : Builder :=
  mkBuilder (heap b) t (stopped b) (rootNode b) (nodes b).
Definition set_stopped (v : bool) (b : Builder) : Builder :=
  mkBuilder (heap b) (startHrTime b) v (rootNode b) (nodes b).
Definition set_nodes (m : gmap string ref) (b : Builder) : Builder :=
  mkBuilder (heap b) (startHrTime b) (stopped b) (rootNode b) m.

(** [new EngineReportingTreeBuilder()]: the root node is created and
    registered under the empty path. *)
Definition new_Builder : Builder :=
  {| heap := [new_Node];
     startHrTime := None;
     stopped := false;
     rootNode := 0%nat;
     nodes := {[ rootResponsePath := 0%nat ]} |}.

(** Allocation of a node object, and assignment to a field of one. *)
Definition alloc (n : Node) : M Builder ref :=
  λ b, Return (length (heap b)) (set_heap (heap b ++ [n]) b).
Definition update (r : ref) (f : Node → Node) : M Builder unit :=
  modify (λ b, set_heap (alter f r (heap b)) b).

Definition startTiming (now : HrTime) : M Builder unit :=
  b ← get;
  if startHrTime b is Some _ then throw (Error "startTiming called twice!")
  else if stopped b then throw (Error "startTiming called after stopTiming!")
  else modify (set_startHrTime (Some now)).

(** [newNode], with [ensureParentNode] written inside it: the two call
    each other, and the recursion is on [path.prev].  Were the parent path
    missing with [path.prev] undefined, [newNode(undefined)] would create
    its node and then throw a [TypeError] on [path.key]. *)
Fixpoint newNode (path : ResponsePath) : M Builder ref :=
  let ensureParentNode : M Builder ref :=
    let parentPath := responsePathAsString (prev path) in
    b ← get;
    match nodes b !! parentPath with
    | Some parentNode => ret parentNode
    | None =>
        match path with
        | Path (Some pp) _ => newNode pp
        | Path None _ => alloc new_Node;; throw TypeError
        end
    end in
  node ← alloc new_Node;
  match key path with
  | KNumber id => update node (set_index id)
  | KString id => update node (set_fieldName id)
  end;;
  modify (λ b, set_nodes (<[responsePathAsString (Some path) := node]> (nodes b)) b);;
  parentNode ← ensureParentNode;
  update parentNode (push_child node);;
  ret node.

Definition ensureParentNode (path : ResponsePath) : M Builder ref :=
  let parentPath := responsePathAsString (prev path) in
  b ← get;
  match nodes b !! parentPath with
  | Some parentNode => ret parentNode
  | None =>
      match prev path with
      | Some pp => newNode pp
      | None => alloc new_Node;; throw TypeError
      end
  end.

(** [GraphQLResolveInfo], with the two types already printed. *)
Record ResolveInfo := mkInfo {
  info_path : ResponsePath;
  returnType : string;
  info_parentType : string
}.

(** [willResolveField]; the closure it returns is [endHandler node], for
    the node the call created. *)
Definition willResolveField (info : ResolveInfo) (now : HrTime) : M Builder ref :=
  b ← get;
  if startHrTime b is None then throw (Error "willResolveField called before startTiming!")
  else if stopped b then throw (Error "willResolveField called after stopTiming!")
  else
    node ← newNode (info_path info);
    update node (set_type (returnType info));;
    update node (set_parentType (info_parentType info));;
    update node (set_startTime (durationHrTimeToNanos (process_hrtime now (startHrTime b))));;
    ret node.

(** The closure returned by [willResolveField], called at time [now]. *)
Definition endHandler (node : ref) (now : HrTime) : M Builder unit :=
  b ← get;
  update node (set_endTime (durationHrTimeToNanos (process_hrtime now (startHrTime b)))).

Definition addError (path : option (list Key)) (err : TraceError) : M Builder unit :=
  b ← get;
  if startHrTime b is None then throw (Error "addError called before startTiming!")
  else if stopped b then throw (Error "addError called after stopTiming!")
  else
    let node :=
      match path with
      | Some path =>
          match nodes b !! join "." path with
          | Some specificNode => specificNode
          | None => rootNode b
          end
      | None => rootNode b
      end in
    update node (push_error err).

Definition stopTiming (now : HrTime) : M Builder (Z * ref) :=
  b ← get;
  if startHrTime b is None then throw (Error "stopTiming called before startTiming!")
  else if stopped b then throw (Error "stopTiming called twice!")
  else
    modify (set_stopped true);;
    ret (durationHrTimeToNanos (process_hrtime now (startHrTime b)), rootNode b).

End TreeBuilder.

(* ===================================================================== *)
(** ** The per-request extension ([EngineReportingExtension]) *)
(* ===================================================================== *)

Module Extension.

(** [Array<String> | boolean] or absent: the type of the [privateHeaders]
    and [privateVariables] options. *)
Inductive PrivateOption :=
  | PrivateUnset
  | PrivateBool (b : bool)
  | PrivateArray (names : list string).

Global Instance PrivateOption_eq_dec : EqDecision PrivateOption.
Proof. solve_decision. Defined.

(** The boolean signals of [requestContext.metrics]; each may be absent. *)
Record Metrics := mkMetrics {
  responseCacheHit : option bool;
  forbiddenOperation_signal : option bool;
  registeredOperation_signal : option bool;
  persistedQueryHit_signal : option bool;
  persistedQueryRegister_signal : option bool
}.

(** Truthiness of an optional boolean: [!!x], and the test of [if (x)]. *)
Definition truthy (x : option bool) : bool := from_option id false x.

(** Modelled from the spec: the [Trace.HTTP.Method] enumeration of the
    protobuf package, "a fixed enumeration with an UNKNOWN fallback". *)
Inductive Method :=
  | UNKNOWN | OPTIONS | GET | HEAD | POST | PUT | DELETE | TRACE | CONNECT | PATCH.

Definition Method_of_string (m : string) : option Method :=
  if decide (m = "UNKNOWN") then Some UNKNOWN
  else if decide (m = "OPTIONS") then Some OPTIONS
  else if decide (m = "GET") then Some GET
  else if decide (m = "HEAD") then Some HEAD
  else if decide (m = "POST") then Some POST
  else if decide (m = "PUT") then Some PUT
  else if decide (m = "DELETE") then Some DELETE
  else if decide (m = "TRACE") then Some TRACE
  else if decide (m = "CONNECT") then Some CONNECT
  else if decide (m = "PATCH") then Some PATCH
  else None.

(** [Trace.HTTP]; [requestHeaders] is a plain object in which a header
    maps to [Trace.HTTP.Values { value: [v] }], given here by its [value]
    array. *)
Record HTTP := mkHTTP {
  method : Method;
  host : option string;
  http_path : option string;
  requestHeaders : Dict (list string)
}.

Record Timestamp := mkTimestamp { seconds : Z; nanos : Z }.

(** [dateToTimestamp], on the milliseconds of the [Date]. *)
Definition dateToTimestamp (totalMillis : Z) : Timestamp :=
  let millis := Z.rem totalMillis 1000 in
  {| seconds := (totalMillis - millis) / 1000; nanos := millis * 1000000 |}.

(** [Trace], with the own properties of [details.variablesJson] as the
    variable snapshot: each is a string, or [undefined] ([None]) where
    [JSON.stringify] gave that. *)
Record Trace := mkTrace {
  startTime : option Timestamp;
  endTime : option Timestamp;
  durationNs : Z;
  root : option TreeBuilder.ref;
  http : option HTTP;
  details : option (gmap string (option string));
  clientName : string;
  clientVersion : string;
  clientReferenceId : string;
  fullQueryCacheHit : bool;
  forbiddenOperation : bool;
  registeredOperation : bool;
  persistedQueryHit : bool;
  persistedQueryRegister : bool
}.

(** [new Trace()] *)
Definition new_Trace : Trace :=
  {| startTime := None; endTime := None; durationNs := 0; root := None;
     http := None; details := None;
     clientName := ""; clientVersion := ""; clientReferenceId := "";
     fullQueryCacheHit := false; forbiddenOperation := false;
     registeredOperation := false;
     persistedQueryHit := false; persistedQueryRegister := false |}.

Record ClientInfo := mkClientInfo {
  ci_clientName : option string;
  ci_clientVersion : option string;
  ci_clientReferenceId : option string
}.

(** [x || ''] for an optional string. *)
Definition or_empty (x : option string) : string :=
  match x with
  | Some s => s
  | None => ""
  end.

Definition clientNameHeaderKey : string := "apollographql-client-name".
Definition clientReferenceIdHeaderKey : string := "apollographql-client-reference-id".
Definition clientVersionHeaderKey : string := "apollographql-client-version".

(** A header value counts when it is present and not the empty string. *)
Definition nonempty (x : option string) : bool :=
  match x with
  | Some s => negb (bool_decide (s = ""))
  | None => false
  end.

Section WithGraphQL.

(** Data of graphql-js that the extension only passes along: the AST nodes,
    the source and the original error of a [GraphQLError], its
    [extensions], and a parsed document. *)
Context {Nodes Source Original Extensions DocumentNode : Type}.

(** graphql-js derives [locations] from what the constructor receives. *)
Variable getLocations :
  option Nodes → option Source → option (list Z) → option (list TreeBuilder.Location).

(** [JSON.stringify] of a [GraphQLError] instance. *)
Variable GraphQLError_json : string → option (list TreeBuilder.Location) →
  option (list Key) → option Extensions → string.

(** A [GraphQLError] instance of graphql-js, by the properties its
    constructor defines from its arguments.  [message], and [path] and
    [extensions] when they are defined, are enumerable; [nodes], [source],
    [positions] and [originalError] are not. *)
Record GraphQLError := mkGraphQLError {
  message : string;
  nodes : option Nodes;
  source : option Source;
  positions : option (list Z);
  path : option (list Key);
  originalError : option Original;
  extensions : option Extensions
}.

(** [new GraphQLError(message, nodes, source, positions, path,
    originalError, extensions)], on arguments that are properties of a
    [GraphQLError] already: they are kept. *)
Definition new_GraphQLError (message : string) (nodes : option Nodes)
    (source : option Source) (positions : option (list Z))
    (path : option (list Key)) (originalError : option Original)
    (extensions : option Extensions) : GraphQLError :=
  {| message := message;
     nodes := nodes;
     source := source;
     positions := positions;
     path := path;
     originalError := originalError;
     extensions := extensions |}.

(** [err.locations]: the constructor derives it from the nodes, the source
    and the positions, and defines it enumerable when it is defined. *)
Definition locations (err : GraphQLError) : option (list TreeBuilder.Location) :=
  getLocations (nodes err) (source err) (positions err).

(** [Object.assign(Object.create(Object.getPrototypeOf(err)), err)]: an
    object with the prototype of [err] and its own enumerable properties.
    On it [nodes], [source], [positions] and [originalError] read as
    [undefined]. *)
Record ClonedError := mkClonedError {
  cloned_message : string;
  cloned_locations : option (list TreeBuilder.Location);
  cloned_path : option (list Key);
  cloned_extensions : option Extensions
}.

(** [GraphQLErrorOrMaskedErrorObject]: an error, or the bare object
    [{ message }] of [maskErrorDetails]. *)
Inductive GraphQLErrorOrMaskedErrorObject :=
  | IsGraphQLError (e : GraphQLError)
  | MaskedErrorObject (message : string).

Definition eo_message (e : GraphQLErrorOrMaskedErrorObject) : string :=
  match e with
  | IsGraphQLError e => message e
  | MaskedErrorObject m => m
  end.
Definition eo_locations (e : GraphQLErrorOrMaskedErrorObject) :
    option (list TreeBuilder.Location) :=
  match e with
  | IsGraphQLError e => locations e
  | MaskedErrorObject _ => None
  end.
Definition eo_path (e : GraphQLErrorOrMaskedErrorObject) : option (list Key) :=
  match e with
  | IsGraphQLError e => path e
  | MaskedErrorObject _ => None
  end.

(** [JSON.stringify(error)] *)
Definition eo_json (e : GraphQLErrorOrMaskedErrorObject) : string :=
  match e with
  | IsGraphQLError e =>
      GraphQLError_json (message e) (locations e) (path e) (extensions e)
  | MaskedErrorObject m =>
      text_of (stringify (JObject [("message", JString m)]))
  end.

(** What the user's [rewriteError] function may return: [null]; an
    object that is [instanceof GraphQLError] (the clone it was given,
    changed or not, or an error of its own), of which only the message is
    read; or anything else. *)
Inductive Rewritten :=
  | RNull
  | RGraphQLError (message : string)
  | ROther.

(** The parts of [GraphQLRequestContext] the extension reads:
    [request.http.headers] (when [request.http] and its headers are there)
    and [request.extensions.clientInfo] feed the default client
    identification. *)
Record RequestContext := mkRequestContext {
  metrics : Metrics;
  queryHash : string;
  operationName : option string;
  document : option DocumentNode;
  rc_http_headers : option (gmap string string);
  rc_extensions_clientInfo : option ClientInfo
}.

Record EngineReportingOptions := mkOptions {
  privateHeaders : PrivateOption;
  privateVariables : PrivateOption;
  maskErrorDetails : bool;
  opt_rewriteError : option (ClonedError → Rewritten);
  opt_generateClientInfo : option (RequestContext → option ClientInfo)
}.

(** The argument of [requestDidStart]: the request (method and the
    iteration of its headers), and what the pipeline knows at that point. *)
Record RequestDidStart := mkRequestDidStart {
  request_method : string;
  request_headers : list (string * string);
  o_queryString : option string;
  parsedQuery : option DocumentNode;
  variables : option (gmap string Value);
  requestContext : RequestContext
}.

Record AddTraceArgs := mkAddTraceArgs {
  at_operationName : string;
  at_queryHash : string;
  at_documentAST : option DocumentNode;
  at_queryString : string;
  at_trace : Trace
}.

Record EngineReportingExtension := mkExtension {
  trace : Trace;
  treeBuilder : TreeBuilder.Builder;
  explicitOperationName : option string;
  queryString : option string;
  documentAST : option DocumentNode;
  options : EngineReportingOptions
}.

(** [new EngineReportingExtension(options, addTrace)] *)
Definition new_Extension (options : EngineReportingOptions) : EngineReportingExtension :=
  {| trace := new_Trace;
     treeBuilder := TreeBuilder.new_Builder;
     explicitOperationName := None;
     queryString := None;
     documentAST := None;
     options := options |}.

Definition set_trace (t : Trace) (e : EngineReportingExtension) :=
  mkExtension t (treeBuilder e) (explicitOperationName e) (queryString e)
              (documentAST e) (options e).
Definition set_treeBuilder (b : TreeBuilder.Builder) (e : EngineReportingExtension) :=
  mkExtension (trace e) b (explicitOperationName e) (queryString e)
              (documentAST e) (options e).
Definition set_explicitOperationName (v : option string) (e : EngineReportingExtension) :=
  mkExtension (trace e) (treeBuilder e) v (queryString e) (documentAST e) (options e).
Definition set_queryString (v : option string) (e : EngineReportingExtension) :=
  mkExtension (trace e) (treeBuilder e) (explicitOperationName e) v
              (documentAST e) (options e).
Definition set_documentAST (v : option DocumentNode) (e : EngineReportingExtension) :=
  mkExtension (trace e) (treeBuilder e) (explicitOperationName e) (queryString e)
              v (options e).

(** A call of a method of [this.treeBuilder]. *)
Definition onTreeBuilder {A} (m : M TreeBuilder.Builder A) : M EngineReportingExtension A :=
  λ e, match m (treeBuilder e) with
       | Return a b => Return a (set_treeBuilder b e)
       | Throw x b => Throw x (set_treeBuilder b e)
       end.

(** An assignment to fields of [this.trace]. *)
Definition onTrace (f : Trace → Trace) : M EngineReportingExtension unit :=
  modify (λ e, set_trace (f (trace e)) e).

Definition defaultGenerateClientInfo (rc : RequestContext) : option ClientInfo :=
  match rc_http_headers rc with
  | Some headers =>
      if nonempty (headers !! clientNameHeaderKey)
         || nonempty (headers !! clientVersionHeaderKey)
         || nonempty (headers !! clientReferenceIdHeaderKey)
      then Some {| ci_clientName := headers !! clientNameHeaderKey;
                   ci_clientVersion := headers !! clientVersionHeaderKey;
                   ci_clientReferenceId := headers !! clientReferenceIdHeaderKey |}
      else match rc_extensions_clientInfo rc with
           | Some ci => Some ci
           | None => Some (mkClientInfo None None None)
           end
  | None =>
      match rc_extensions_clientInfo rc with
      | Some ci => Some ci
      | None => Some (mkClientInfo None None None)
      end
  end.

(** The test of the header loop: [privateHeaders] is an array with an
    element equal to [key] once both are in lower case. *)
Definition isPrivateHeader (opts : EngineReportingOptions) (key : string) : bool :=
  match privateHeaders opts with
  | PrivateArray names =>
      existsb (λ privateHeader,
                 bool_decide (toLowerCase privateHeader = toLowerCase key)) names
  | _ => false
  end.

(** The three cases of the [switch] that fall to [break]. *)
Definition isAlwaysOmitted (key : string) : bool :=
  bool_decide (key = "authorization") || bool_decide (key = "cookie")
  || bool_decide (key = "set-cookie").

(** One round of [for (const [key, value] of o.request.headers)]. *)
Definition recordHeader (opts : EngineReportingOptions)
    (requestHeaders : Dict (list string)) (header : string * string) :
    Dict (list string) :=
  let '(key, value) := header in
  if isPrivateHeader opts key then requestHeaders
  else if isAlwaysOmitted key then requestHeaders
  else assign key [value] requestHeaders.

(** The test of the variable loop: [privateVariables] is an array that
    includes [name]. *)
Definition isPrivateVariable (opts : EngineReportingOptions) (name : string) : bool :=
  match privateVariables opts with
  | PrivateArray names => bool_decide (name ∈ names)
  | _ => false
  end.

Definition unableToConvert : string :=
  text_of (stringify (JString "[Unable to convert value to JSON]")).

(** The value assigned to [variablesJson[name]] for one variable: a
    string, or [undefined] ([None]) when [JSON.stringify] gave that. *)
Definition variableJson (opts : EngineReportingOptions) (name : string) (value : Value) :
    option string :=
  if isPrivateVariable opts name then Some ""
  else match stringify value with
       | Text text => Some text
       | Undefined => None
       | Thrown => Some unableToConvert
       end.

(** One round of [Object.keys(o.variables).forEach]. *)
Definition recordVariable (opts : EngineReportingOptions) (name : string)
    (value : Value) (variablesJson : gmap string (option string)) :
    gmap string (option string) :=
  assign_primitive name (variableJson opts name value) variablesJson.

Definition set_startTime (v : option Timestamp) (t : Trace) : Trace :=
  mkTrace v (endTime t) (durationNs t) (root t) (http t) (details t)
    (clientName t) (clientVersion t) (clientReferenceId t)
    (fullQueryCacheHit t) (forbiddenOperation t) (registeredOperation t)
    (persistedQueryHit t) (persistedQueryRegister t).
Definition set_http (v : option HTTP) (t : Trace) : Trace :=
  mkTrace (startTime t) (endTime t) (durationNs t) (root t) v (details t)
    (clientName t) (clientVersion t) (clientReferenceId t)
    (fullQueryCacheHit t) (forbiddenOperation t) (registeredOperation t)
    (persistedQueryHit t) (persistedQueryRegister t).
Definition set_details (v : option (gmap string (option string))) (t : Trace) : Trace :=
  mkTrace (startTime t) (endTime t) (durationNs t) (root t) (http t) v
    (clientName t) (clientVersion t) (clientReferenceId t)
    (fullQueryCacheHit t) (forbiddenOperation t) (registeredOperation t)
    (persistedQueryHit t) (persistedQueryRegister t).
Definition set_client (name version referenceId : string) (t : Trace) : Trace :=
  mkTrace (startTime t) (endTime t) (durationNs t) (root t) (http t) (details t)
    name version referenceId
    (fullQueryCacheHit t) (forbiddenOperation t) (registeredOperation t)
    (persistedQueryHit t) (persistedQueryRegister t).
Definition set_persistedQueryHit (v : bool) (t : Trace) : Trace :=
  mkTrace (startTime t) (endTime t) (durationNs t) (root t) (http t) (details t)
    (clientName t) (clientVersion t) (clientReferenceId t)
    (fullQueryCacheHit t) (forbiddenOperation t) (registeredOperation t)
    v (persistedQueryRegister t).
Definition set_persistedQueryRegister (v : bool) (t : Trace) : Trace :=
  mkTrace (startTime t) (endTime t) (durationNs t) (root t) (http t) (details t)
    (clientName t) (clientVersion t) (clientReferenceId t)
    (fullQueryCacheHit t) (forbiddenOperation t) (registeredOperation t)
    (persistedQueryHit t) v.
Definition set_end (duration : Z) (rootNode : TreeBuilder.ref) (stamp : Timestamp)
    (cacheHit forbidden registered : bool) (t : Trace) : Trace :=
  mkTrace (startTime t) (Some stamp) duration (Some rootNode) (http t) (details t)
    (clientName t) (clientVersion t) (clientReferenceId t)
    cacheHit forbidden registered
    (persistedQueryHit t) (persistedQueryRegister t).

(** The block [if (this.options.privateHeaders !== true) { ... }]: the
    header loop, followed by the two persisted-query flags. *)
Definition recordHeaders (opts : EngineReportingOptions) (o : RequestDidStart)
    (t : Trace) : Trace :=
  if decide (privateHeaders opts = PrivateBool true) then t
  else
    let t1 :=
      set_http
        (h ← http t;
         Some (mkHTTP (method h) (host h) (http_path h)
                 (foldl (recordHeader opts) (requestHeaders h) (request_headers o))))
        t in
    let t2 :=
      if truthy (persistedQueryHit_signal (metrics (requestContext o)))
      then set_persistedQueryHit true t1 else t1 in
    if truthy (persistedQueryRegister_signal (metrics (requestContext o)))
    then set_persistedQueryRegister true t2 else t2.

(** The block [if (this.options.privateVariables !== true && o.variables)
    { ... }]: a fresh [Trace.Details] filled by the variable loop. *)
Definition recordVariables (opts : EngineReportingOptions) (o : RequestDidStart)
    (t : Trace) : Trace :=
  if decide (privateVariables opts = PrivateBool true) then t
  else
    match variables o with
    | Some vars => set_details (Some (map_fold (recordVariable opts) ∅ vars)) t
    | None => t
    end.

(** The block [if (clientInfo) { ... }]. *)
Definition recordClientInfo (opts : EngineReportingOptions) (o : RequestDidStart)
    (t : Trace) : Trace :=
  match default defaultGenerateClientInfo (opt_generateClientInfo opts)
          (requestContext o) with
  | Some clientInfo =>
      set_client (or_empty (ci_clientName clientInfo))
                 (or_empty (ci_clientVersion clientInfo))
                 (or_empty (ci_clientReferenceId clientInfo)) t
  | None => t
  end.

(** [requestDidStart(o)], run when the wall clock shows [nowMillis] and
    the monotonic clock [nowHr]; the closure it returns is
    [requestDidEnd o]. *)
Definition requestDidStart (o : RequestDidStart) (nowMillis : Z)
    (nowHr : TreeBuilder.HrTime) : M EngineReportingExtension unit :=
  onTrace (set_startTime (Some (dateToTimestamp nowMillis)));;
  onTreeBuilder (TreeBuilder.startTiming nowHr);;
  modify (set_queryString (o_queryString o));;
  modify (set_documentAST (parsedQuery o));;
  onTrace (set_http (Some
    {| method := default UNKNOWN (Method_of_string (request_method o));
       host := None;
       http_path := None;
       requestHeaders := empty_Dict |}));;
  this ← get;
  onTrace (recordHeaders (options this) o);;
  onTrace (recordVariables (options this) o);;
  onTrace (recordClientInfo (options this) o).

(** [a || b] on optional strings: the empty string is falsy. *)
Definition or_else (a b : option string) : option string :=
  if nonempty a then a else b.

(** The end handler returned by [requestDidStart(o)].  [rc] is the request
    context as the pipeline has left it by then; the result is the argument
    handed to [addTrace]. *)
Definition requestDidEnd (o : RequestDidStart) (rc : RequestContext)
    (nowHr : TreeBuilder.HrTime) (nowMillis : Z) :
    M EngineReportingExtension AddTraceArgs :=
  '(durationNs, rootNode) ← onTreeBuilder (TreeBuilder.stopTiming nowHr);
  onTrace (set_end durationNs rootNode (dateToTimestamp nowMillis)
             (truthy (responseCacheHit (metrics rc)))
             (truthy (forbiddenOperation_signal (metrics rc)))
             (truthy (registeredOperation_signal (metrics rc))));;
  this ← get;
  ret {| at_operationName :=
           or_empty (or_else (explicitOperationName this)
                             (or_else (operationName rc) None));
         at_queryHash := queryHash (requestContext o);
         at_documentAST :=
           match documentAST this with
           | Some d => Some d
           | None => document rc
           end;
         at_queryString := or_empty (queryString this);
         at_trace := trace this |}.

(** [executionDidStart], on [executionArgs.operationName] and
    [executionArgs.document]. *)
Definition executionDidStart (operationName : option string) (document : DocumentNode) :
    M EngineReportingExtension unit :=
  (if nonempty operationName then modify (set_explicitOperationName operationName)
   else ret tt);;
  modify (set_documentAST (Some document)).

Definition willResolveField (info : TreeBuilder.ResolveInfo) (now : TreeBuilder.HrTime) :
    M EngineReportingExtension TreeBuilder.ref :=
  onTreeBuilder (TreeBuilder.willResolveField info now).

(** The copy handed to the user's function. *)
Definition clonedError (err : GraphQLError) : ClonedError :=
  {| cloned_message := message err;
     cloned_locations := locations err;
     cloned_path := path err;
     cloned_extensions := extensions err |}.

Definition rewriteError (opts : EngineReportingOptions) (err : GraphQLError) :
    option GraphQLErrorOrMaskedErrorObject :=
  if maskErrorDetails opts then Some (MaskedErrorObject "<masked>")
  else
    match opt_rewriteError opts with
    | Some rewrite =>
        match rewrite (clonedError err) with
        | RNull => None
        | ROther => Some (IsGraphQLError err)
        | RGraphQLError rewrittenError_message =>
            Some (IsGraphQLError
                    (new_GraphQLError rewrittenError_message (nodes err) (source err)
                       (positions err) (path err) (originalError err)
                       (extensions err)))
        end
    | None => Some (IsGraphQLError err)
    end.

(** The [Trace.Error] that [addError] builds from an error. *)
Definition traceError (error : GraphQLErrorOrMaskedErrorObject) : TreeBuilder.TraceError :=
  {| TreeBuilder.message := eo_message error;
     TreeBuilder.location :=
       map (λ l, TreeBuilder.mkLocation (TreeBuilder.line l) (TreeBuilder.column l))
           (default [] (eo_locations error));
     TreeBuilder.json := eo_json error |}.

Definition addError (error : GraphQLErrorOrMaskedErrorObject) :
    M EngineReportingExtension unit :=
  onTreeBuilder (TreeBuilder.addError (eo_path error) (traceError error)).

Fixpoint didEncounterErrors (errors : list GraphQLError) :
    M EngineReportingExtension unit :=
  match errors with
  | [] => ret tt
  | err :: rest =>
      this ← get;
      match rewriteError (options this) err with
      | None => ret tt
      | Some errorForReporting => addError errorForReporting
      end;;
      didEncounterErrors rest
  end.

(** The trace as [requestDidStart] leaves it, from the trace [t] it
    found. *)
Definition startedTrace (opts : EngineReportingOptions) (o : RequestDidStart)
    (nowMillis : Z) (t : Trace) : Trace :=
  recordClientInfo opts o
    (recordVariables opts o
       (recordHeaders opts o
          (set_http
             (Some {| method := default UNKNOWN (Method_of_string (request_method o));
                      host := None; http_path := None; requestHeaders := empty_Dict |})
             (set_startTime (Some (dateToTimestamp nowMillis)) t)))).

(** The same options with another [rewriteError] function, or none. *)
Definition with_rewriteError (rewrite : option (ClonedError → Rewritten))
    (opts : EngineReportingOptions) : EngineReportingOptions :=
  mkOptions (privateHeaders opts) (privateVariables opts) (maskErrorDetails opts)
            rewrite (opt_generateClientInfo opts).

End WithGraphQL.

(** The [Trace.Error] reported for a masked error: its [json] is
    [{"message":"<masked>"}]. *)
Definition maskedTraceError : TreeBuilder.TraceError :=
  {| TreeBuilder.message := "<masked>";
     TreeBuilder.location := [];
     TreeBuilder.json :=
       "{" +:+ String quote ("message" +:+ String quote (":" +:+ String quote
         ("<masked>" +:+ String quote "}"))) |}.

End Extension.

(* ===================================================================== *)
(** ** Vocabulary of the properties *)
(* ===================================================================== *)

Module Lifecycle.
Import TreeBuilder.

(** Where a builder is in Not-Started → Started → Stopped. *)
Inductive Phase := NotStarted | Started | Stopped.

Global Instance Phase_eq_dec : EqDecision Phase.
Proof. solve_decision. Defined.

Definition phase (b : Builder) : Phase :=
  if stopped b then Stopped
  else if startHrTime b is Some _ then Started else NotStarted.

(** The calls a host can make on a builder, with the clock readings they
    take; [CallEndHandler node] is a call of the closure that
    [willResolveField] returned for [node]. *)
Inductive Call :=
  | CallStartTiming (now : HrTime)
  | CallWillResolveField (info : ResolveInfo) (now : HrTime)
  | CallEndHandler (node : ref) (now : HrTime)
  | CallAddError (path : option (list Key)) (err : TraceError)
  | CallStopTiming (now : HrTime).

(** The builder after a call, whether it returned or threw. *)
Definition perform (b : Builder) (c : Call) : Builder :=
  match c with
  | CallStartTiming now => final_state (startTiming now b)
  | CallWillResolveField info now => final_state (willResolveField info now b)
  | CallEndHandler node now => final_state (endHandler node now b)
  | CallAddError path err => final_state (addError path err b)
  | CallStopTiming now => final_state (stopTiming now b)
  end.

Definition perform_all (b : Builder) (calls : list Call) : Builder :=
  foldl perform b calls.

(** The node an error reported at [path] lands on. *)
Definition errorNode (b : Builder) (path : option (list Key)) : ref :=
  match path with
  | Some p => default (rootNode b) (nodes b !! join "." p)
  | None => rootNode b
  end.

(** Sample paths and requests: [a], [a.b] and [a.b.0]. *)
Definition path_a : ResponsePath := Path None (KString "a").
Definition path_a_b : ResponsePath := Path (Some path_a) (KString "b").
Definition path_a_b_0 : ResponsePath := Path (Some path_a_b) (KNumber 0).

Definition info_of (p : ResponsePath) : ResolveInfo := mkInfo p "String" "Query".

(** A builder that was started, resolved [a] (node 1) and was stopped. *)
Definition stopped_builder : Builder :=
  perform_all new_Builder
    [CallStartTiming (10, 0); CallWillResolveField (info_of path_a) (10, 500);
     CallStopTiming (11, 0)].

(** A builder that was started and resolved [a] (node 1). *)
Definition started_builder : Builder :=
  perform_all new_Builder
    [CallStartTiming (10, 0); CallWillResolveField (info_of path_a) (10, 500)].

Definition sample_error : TraceError :=
  {| message := "boom"; location := [mkLocation 1 2]; json := "{}" |}.

(** A node with further errors appended, one after the other. *)
Definition push_errors (errs : list TraceError) (n : Node) : Node :=
  foldl (λ n err, push_error err n) n errs.

End Lifecycle.

(** The shape of the tree: valid response keys, the path string of a
    child, and the invariant that ties the map, the store and the child
    lists together. *)
Module Shape.
Import TreeBuilder.

(** Response keys.  A field key of graphql is a name (a letter or an
    underscore, then letters, digits and underscores) and an index prints
    in decimal; of a name the properties below use that it is not empty,
    does not begin with a digit and holds no dot. *)
Definition is_digit (c : ascii) : bool :=
  let n := N_of_ascii c in ((48 <=? n) && (n <=? 57))%N.

Fixpoint has_dot (s : string) : bool :=
  match s with
  | EmptyString => false
  | String c s' => bool_decide (c = "."%char) || has_dot s'
  end.

Fixpoint all_digits (s : string) : bool :=
  match s with
  | EmptyString => true
  | String c s' => is_digit c && all_digits s'
  end.

Definition valid_name (s : string) : bool :=
  match s with
  | EmptyString => false
  | String c _ => negb (is_digit c) && negb (has_dot s)
  end.

Definition valid_key (k : Key) : bool :=
  match k with
  | KString s => valid_name s
  | KNumber _ => true
  end.

Fixpoint valid_path (p : ResponsePath) : bool :=
  match p with
  | Path None k => valid_key k
  | Path (Some pp) k => valid_key k && valid_path pp
  end.

(** The path string of the child with key [k] of the node registered
    under [parent] (the root being registered under the empty string). *)
Definition childPath (parent : string) (k : Key) : string :=
  if decide (parent = "") then key_to_string k
  else parent +:+ "." +:+ key_to_string k.

(** The segment a node records: [fieldName] or [index], whichever
    [newNode] has set; the root has neither. *)
Definition nodeKey (n : Node) : option Key :=
  match fieldName n, index n with
  | Some s, None => Some (KString s)
  | None, Some i => Some (KNumber i)
  | _, _ => None
  end.

(** The node [newNode] has built once it has stored the key. *)
Definition keyedNode (k : Key) : Node :=
  match k with
  | KNumber id => set_index id new_Node
  | KString id => set_fieldName id new_Node
  end.

(** The builder after the first half of [newNode path]: the node is
    created and registered, and has no parent yet. *)
Definition registered (path : ResponsePath) (b : Builder) : Builder :=
  set_nodes (<[responsePathAsString (Some path) := length (heap b)]> (nodes b))
    (set_heap (heap b ++ [keyedNode (key path)]) b).

(** The builder after [parentNode.child.push(node)]. *)
Definition attached (parent child : ref) (b : Builder) : Builder :=
  set_heap (alter (push_child child) parent (heap b)) b.

Abbreviation str := responsePathAsString.

(** A path and its prefixes, longest first. *)
Fixpoint ancestors (p : ResponsePath) : list ResponsePath :=
  p :: match p with
       | Path (Some pp) _ => ancestors pp
       | Path None _ => []
       end.

Global Instance ResponsePath_eq_dec : EqDecision ResponsePath.
Proof.
  refine (fix go (p q : ResponsePath) {struct p} : Decision (p = q) :=
    match p, q with
    | Path pp k, Path qq k' =>
        cast_if_and (decide (k = k'))
          (match pp, qq return Decision (pp = qq) with
           | Some a, Some b => cast_if (go a b)
           | None, None => left _
           | _, _ => right _
           end)
    end); abstract congruence.
Defined.

(** The paths are valid and none comes after itself or one of its
    descendants ([seen] holds the paths that came before). *)
Fixpoint in_order (seen : list ResponsePath) (ps : list ResponsePath) : bool :=
  match ps with
  | [] => true
  | q :: rest =>
      valid_path q
      && forallb (λ p, negb (bool_decide (q ∈ ancestors p))) seen
      && in_order (q :: seen) rest
  end.

(** The calls of the Started window: field starts, field ends, errors. *)
Definition in_window (c : Lifecycle.Call) : bool :=
  match c with
  | Lifecycle.CallWillResolveField _ _ | Lifecycle.CallEndHandler _ _
  | Lifecycle.CallAddError _ _ => true
  | _ => false
  end.

(** The paths given to [willResolveField], in the order of the calls. *)
Fixpoint started_paths (calls : list Lifecycle.Call) : list ResponsePath :=
  match calls with
  | [] => []
  | Lifecycle.CallWillResolveField info _ :: rest => info_path info :: started_paths rest
  | _ :: rest => started_paths rest
  end.

(** [q] is one of [ps] or a prefix of one. *)
Definition covered (ps : list ResponsePath) (q : ResponsePath) : Prop :=
  ∃ p, p ∈ ps ∧ q ∈ ancestors p.

(** The map, the store and the child lists describe one tree, up to the
    nodes in [orphans], which [newNode] has registered and not yet pushed
    on a child list:
    the root is registered under the empty string and records no segment;
    the map sends distinct strings to distinct nodes of the store, every
    node of the store is registered, and every registered string is the
    empty string or the string of a valid path;
    the node registered for a path records the last segment of the path;
    a child list has no duplicates, and its entries are the nodes
    registered under the path strings one segment longer;
    and the node of a path sits, unless it is an orphan, in the child list
    of the node of the parent path, while an orphan sits in none. *)
Record well_shaped (orphans : list ref) (b : Builder) : Prop := {
  ws_root : nodes b !! "" = Some (rootNode b);
  ws_root_key : ∀ rn, heap b !! rootNode b = Some rn → nodeKey rn = None;
  ws_alloc : ∀ k n, nodes b !! k = Some n → (n < length (heap b))%nat;
  ws_inj : ∀ k1 k2 n, nodes b !! k1 = Some n → nodes b !! k2 = Some n → k1 = k2;
  ws_reg : ∀ n, (n < length (heap b))%nat → ∃ k, nodes b !! k = Some n;
  ws_dom : ∀ k n, nodes b !! k = Some n →
    k = "" ∨ ∃ q, valid_path q = true ∧ str (Some q) = k;
  ws_key : ∀ q n cn, valid_path q = true → nodes b !! str (Some q) = Some n →
    heap b !! n = Some cn → nodeKey cn = Some (key q);
  ws_child : ∀ k p pn, nodes b !! k = Some p → heap b !! p = Some pn →
    NoDup (child pn)
    ∧ ∀ c, c ∈ child pn →
        ∃ cn ck, heap b !! c = Some cn ∧ nodeKey cn = Some ck
                 ∧ valid_key ck = true ∧ nodes b !! childPath k ck = Some c;
  ws_parent : ∀ q n, valid_path q = true → nodes b !! str (Some q) = Some n →
    n ∉ orphans →
    ∃ p pn, nodes b !! str (prev q) = Some p ∧ heap b !! p = Some pn ∧ n ∈ child pn;
  ws_orphans : ∀ o, o ∈ orphans →
    (o < length (heap b))%nat ∧ ∀ p pn, heap b !! p = Some pn → o ∉ child pn
}.

(** Calls of one request: [a] is resolved, then [a.b.0] (which creates
    [a.b] on the way), an error is reported at [a.b] and the closure of [a]
    is called. *)
Definition sample_calls : list Lifecycle.Call :=
  [Lifecycle.CallWillResolveField (Lifecycle.info_of Lifecycle.path_a) (10, 100);
   Lifecycle.CallWillResolveField (Lifecycle.info_of Lifecycle.path_a_b_0) (10, 200);
   Lifecycle.CallAddError (Some [KString "a"; KString "b"]) Lifecycle.sample_error;
   Lifecycle.CallEndHandler 1%nat (10, 300)].

(** Two distinct paths, each started once, the child before its parent. *)
Definition child_first_calls : list Lifecycle.Call :=
  [Lifecycle.CallWillResolveField (Lifecycle.info_of Lifecycle.path_a_b) (10, 100);
   Lifecycle.CallWillResolveField (Lifecycle.info_of Lifecycle.path_a) (10, 200)].

(** The invariant of the Started window: the builder is well shaped with
    no orphan, and the registered strings are the empty string and the
    strings of the paths started so far ([seen]) and of their prefixes. *)
Definition tree_inv (seen : list ResponsePath) (b : Builder) : Prop :=
  well_shaped [] b
  ∧ Lifecycle.phase b = Lifecycle.Started
  ∧ Forall (λ p, valid_path p = true) seen
  ∧ ∀ k, is_Some (nodes b !! k) ↔ k = "" ∨ ∃ q, covered seen q ∧ str (Some q) = k.
End Shape.

(** Concrete requests, options and errors, with the graphql-js data kept
    trivial: locations are the positions on line 1. *)
Module Samples.
Import Extension.

Definition Options : Type := @EngineReportingOptions unit string.
Definition Error : Type := @GraphQLError unit unit unit unit.

Definition getLocations (nodes : option unit) (source : option unit)
    (positions : option (list Z)) : option (list TreeBuilder.Location) :=
  map (TreeBuilder.mkLocation 1) <$> positions.

Definition GraphQLError_json (message : string)
    (locations : option (list TreeBuilder.Location)) (path : option (list Key))
    (extensions : option unit) : string :=
  text_of (stringify (JObject [("message", JString message)])).

Definition options_of (headers variables : PrivateOption) (mask : bool)
    (rewrite : option (@ClonedError unit → Rewritten)) : Options :=
  mkOptions headers variables mask rewrite None.

Definition all_true : Metrics :=
  mkMetrics (Some true) (Some true) (Some true) (Some true) (Some true).

Definition context_of (m : Metrics) : @RequestContext string :=
  mkRequestContext m "hash" None None None None.

Definition request_of (headers : list (string * string))
    (vars : option (gmap string Value)) (m : Metrics) : @RequestDidStart string :=
  mkRequestDidStart "POST" headers (Some "{ a }") None vars (context_of m).

Definition sample_headers : list (string * string) :=
  [("authorization", "Bearer t"); ("x-secret", "s"); ("accept", "json")].

Definition sample_variables : gmap string Value :=
  {[ "password" := JString "x"; "user" := JString "bob" ]}.

(** An error raised at [a.b], positions 3 and 9. *)
Definition sample_graphql_error : Error :=
  new_GraphQLError "secret leaked" None None (Some [3; 9])
    (Some [KString "a"; KString "b"]) None (Some tt).

(** User functions: drop every error, replace the message. *)
Definition rewrite_drop (err : @ClonedError unit) : Rewritten := RNull.

(** An extension whose request has started and resolved [a] and [a.b]. *)
Definition started_extension (opts : Options) :
    @EngineReportingExtension unit string :=
  final_state
    ((requestDidStart (request_of [] None all_true) 1000 (10, 0);;
      willResolveField (Lifecycle.info_of Lifecycle.path_a) (10, 100);;
      willResolveField (Lifecycle.info_of Lifecycle.path_a_b) (10, 200))
       (new_Extension opts)).

End Samples.

(** Further concrete requests: client identification by headers and by
    the [clientInfo] extension, and a request that names its operation. *)
Module Requests.
Import Extension.

Definition client_headers : gmap string string :=
  {[ "apollographql-client-name" := "web";
     "apollographql-client-version" := "1.0" ]}.

Definition extension_client : ClientInfo :=
  mkClientInfo (Some "legacy") (Some "0.9") (Some "ref-7").

(** The request context of a client that sends both. *)
Definition context_with_client : @RequestContext string :=
  mkRequestContext Samples.all_true "hash" (Some "PipelineName") (Some "pipeline doc")
    (Some client_headers) (Some extension_client).

Definition request_with_client : @RequestDidStart string :=
  mkRequestDidStart "POST" [] (Some "{ a }") None None context_with_client.

Section Calls.
Context {Nodes Source Original Extensions DocumentNode : Type}.
Variable getLocations :
  option Nodes → option Source → option (list Z) → option (list TreeBuilder.Location).
Variable GraphQLError_json : string → option (list TreeBuilder.Location) →
  option (list Key) → option Extensions → string.

(** The calls the request pipeline makes on the extension between
    [requestDidStart] and the end handler it returned; [FieldResolved
    node] is a call of the closure that [willResolveField] returned for
    [node]. *)
Inductive PipelineCall :=
  | ExecutionDidStart (operationName : option string) (document : DocumentNode)
  | WillResolveField (info : TreeBuilder.ResolveInfo) (now : TreeBuilder.HrTime)
  | FieldResolved (node : TreeBuilder.ref) (now : TreeBuilder.HrTime)
  | DidEncounterErrors (errors : list (@GraphQLError Nodes Source Original Extensions)).

(** The extension after a call, whether it returned or threw. *)
Definition handle
    (e : @EngineReportingExtension Extensions DocumentNode)
    (c : PipelineCall) :
    @EngineReportingExtension Extensions DocumentNode :=
  match c with
  | ExecutionDidStart operationName document =>
      final_state (executionDidStart operationName document e)
  | WillResolveField info now => final_state (willResolveField info now e)
  | FieldResolved node now =>
      final_state (onTreeBuilder (TreeBuilder.endHandler node now) e)
  | DidEncounterErrors errors =>
      final_state (didEncounterErrors getLocations GraphQLError_json errors e)
  end.

Definition handle_all
    (e : @EngineReportingExtension Extensions DocumentNode)
    (calls : list PipelineCall) :
    @EngineReportingExtension Extensions DocumentNode :=
  foldl handle e calls.

(** The call of the builder's [addError] that the extension's [addError]
    makes for a reportable error. *)
Definition addErrorCall
    (error : @GraphQLErrorOrMaskedErrorObject Nodes Source Original Extensions) :
    Lifecycle.Call :=
  Lifecycle.CallAddError (eo_path error) (traceError getLocations GraphQLError_json error).

End Calls.

(** A request pipeline that resolves [a.b], reports an error there and
    reaches execution. *)
Definition sample_pipeline : list (@PipelineCall unit unit unit unit string) :=
  [ExecutionDidStart (Some "Q") "doc";
   WillResolveField (Lifecycle.info_of Lifecycle.path_a) (10, 100);
   WillResolveField (Lifecycle.info_of Lifecycle.path_a_b) (10, 200);
   DidEncounterErrors [Samples.sample_graphql_error];
   FieldResolved 2%nat (10, 300)].

End Requests.

(** How nodes and builders may change over the calls of a request. *)
Module Growth.
Import TreeBuilder.

(** The place of a phase in the lifecycle. *)
Definition rank (p : Lifecycle.Phase) : nat :=
  match p with
  | Lifecycle.NotStarted => 0
  | Lifecycle.Started => 1
  | Lifecycle.Stopped => 2
  end.

(** [n'] is [n] after further calls: the segment, the types and the start
    offset are those of [n], and the child and error lists of [n] are the
    beginnings of those of [n']. *)
Definition extends (n n' : Node) : Prop :=
  fieldName n' = fieldName n ∧ index n' = index n
  ∧ type n' = type n ∧ parentType n' = parentType n
  ∧ startTime n' = startTime n
  ∧ child n `prefix_of` child n' ∧ error n `prefix_of` error n'.

(** [n'] is [n] up to the end offset. *)
Definition same_but_endTime (n n' : Node) : Prop :=
  fieldName n' = fieldName n ∧ index n' = index n
  ∧ type n' = type n ∧ parentType n' = parentType n
  ∧ startTime n' = startTime n
  ∧ child n' = child n ∧ error n' = error n.

(** [b'] is [b] after node creations: clock origin, stop flag and root are
    those of [b], and every node of [b] is still there, extended, with its
    end offset and its errors. *)
Definition grows (b b' : Builder) : Prop :=
  startHrTime b' = startHrTime b ∧ stopped b' = stopped b
  ∧ rootNode b' = rootNode b
  ∧ ∀ i n, heap b !! i = Some n →
      ∃ n', heap b' !! i = Some n' ∧ extends n n'
            ∧ endTime n' = endTime n ∧ error n' = error n.


(** The nanoseconds of a clock reading, as an integer. *)
Definition nanoseconds (t : HrTime) : Z := fst t * 1000000000 + snd t.

(** A reading of [process.hrtime]: whole seconds, and nanoseconds within
    a second. *)
Definition reading (t : HrTime) : Prop :=
  0 ≤ fst t ∧ 0 ≤ snd t < 1000000000.

End Growth.

(* ===================================================================== *)
(** ** Properties of the tree builder *)
(* ===================================================================== *)

Ltac run_js :=
  cbv [mbind mret M_bind M_ret Js.bind Js.ret Js.get Js.modify Js.throw
       TreeBuilder.update TreeBuilder.alloc].

Section LifecycleProperties.
Import TreeBuilder Lifecycle.

Lemma endHandler_returns (node : ref) (now : HrTime) (b : Builder) :
  endHandler node now b =
  Return tt (set_heap
    (alter (set_endTime (durationHrTimeToNanos (process_hrtime now (startHrTime b))))
           node (heap b)) b).
Proof. reflexivity. Qed.

(** C3, as the code has it.  Outside their window the four methods of the
    builder throw an [Error] and leave the builder as it was:
    [startTiming] once the builder was started or stopped,
    [willResolveField], [addError] and [stopTiming] before [startTiming]
    and after [stopTiming].  The closure returned by [willResolveField]
    has no such check: in every phase it returns and stores the end
    offset in its node. *)
Theorem guarded_methods_throw_outside_window (b : Builder) :
  (phase b ≠ NotStarted →
     ∀ now, ∃ msg, startTiming now b = Throw (Error msg) b)
  ∧ (phase b ≠ Started →
       (∀ info now, ∃ msg, willResolveField info now b = Throw (Error msg) b)
       ∧ (∀ path err, ∃ msg, addError path err b = Throw (Error msg) b)
       ∧ (∀ now, ∃ msg, stopTiming now b = Throw (Error msg) b))
  ∧ (∀ node now, ∃ b', endHandler node now b = Return tt b'
       ∧ ∀ n, heap b !! node = Some n →
           heap b' !! node = Some (set_endTime
             (durationHrTimeToNanos (process_hrtime now (startHrTime b))) n)).
Proof.
  unfold phase. split; [|split].
  - intros H now. unfold startTiming. run_js.
    destruct (startHrTime b), (stopped b); try congruence; eauto.
  - intros H. repeat split; intros.
    + unfold willResolveField. run_js.
      destruct (startHrTime b), (stopped b); try congruence; eauto.
    + unfold addError. run_js.
      destruct (startHrTime b), (stopped b); try congruence; eauto.
    + unfold stopTiming. run_js.
      destruct (startHrTime b), (stopped b); try congruence; eauto.
  - intros node now. eexists. split; [apply endHandler_returns|].
    intros n Hn. simpl. rewrite list_lookup_alter_eq, Hn. reflexivity.
Qed.

Lemma guarded_methods_throw_outside_window_witness :
  (∃ msg, startTiming (12, 0) stopped_builder = Throw (Error msg) stopped_builder)
  ∧ (∃ msg, willResolveField (info_of path_a_b) (12, 0) new_Builder
            = Throw (Error msg) new_Builder)
  ∧ (∃ msg, addError None sample_error stopped_builder
            = Throw (Error msg) stopped_builder)
  ∧ (∃ msg, stopTiming (12, 0) stopped_builder = Throw (Error msg) stopped_builder).
Proof.
  destruct (guarded_methods_throw_outside_window stopped_builder) as (H1 & H2 & _).
  destruct (guarded_methods_throw_outside_window new_Builder) as (_ & H3 & _).
  split; [apply H1; vm_compute; congruence|].
  split; [apply H3; vm_compute; congruence|].
  split; apply H2; vm_compute; congruence.
Defined.

(** C3 as stated fails for the end handle: called after [stopTiming], the
    closure of node 1 does not throw, and it changes the node. *)
Lemma endHandler_after_stop_mutates :
  phase stopped_builder = Stopped
  ∧ threw (endHandler 1%nat (12, 0) stopped_builder) = false
  ∧ (endTime <$> heap stopped_builder !! 1%nat) = Some 0
  ∧ (endTime <$> heap (final_state (endHandler 1%nat (12, 0) stopped_builder)) !! 1%nat)
    = Some 2000000000.
Proof. vm_compute. repeat split. Qed.

Lemma stopped_stays (b : Builder) (c : Call) :
  stopped b = true → is_Some (startHrTime b) →
  stopped (perform b c) = true ∧ is_Some (startHrTime (perform b c))
  ∧ rootNode (perform b c) = rootNode b.
Proof.
  intros Hs [t Ht]. destruct c; simpl.
  - unfold startTiming. run_js. rewrite Ht. simpl. rewrite Ht. eauto.
  - unfold willResolveField. run_js. rewrite Ht, Hs. simpl. rewrite Ht. eauto.
  - simpl. rewrite Ht. eauto.
  - unfold addError. run_js. rewrite Ht, Hs. simpl. rewrite Ht. eauto.
  - unfold stopTiming. run_js. rewrite Ht, Hs. simpl. rewrite Ht. eauto.
Qed.

Lemma stopped_stays_all (calls : list Call) (b : Builder) :
  stopped b = true → is_Some (startHrTime b) →
  stopped (perform_all b calls) = true ∧ is_Some (startHrTime (perform_all b calls))
  ∧ rootNode (perform_all b calls) = rootNode b.
Proof.
  revert b. induction calls as [|c calls IH]; intros b Hs Ht; [done|].
  destruct (stopped_stays b c Hs Ht) as (Hs' & Ht' & Hr).
  destruct (IH (perform b c) Hs' Ht') as (? & ? & Hr').
  unfold perform_all in *. simpl. rewrite Hr', Hr. done.
Qed.

(** C4.  Once [stopTiming] has returned, every later call of it — directly
    after, or after any further calls on the builder — throws
    "stopTiming called twice!" and leaves the builder as it was, and with
    it the root node that the first call returned. *)
Theorem stopTiming_twice_throws (b b1 : Builder) (now : HrTime) (result : Z * ref) :
  stopTiming now b = Return result b1 →
  result.2 = rootNode b1
  ∧ ∀ (calls : list Call) (now' : HrTime),
      let b2 := perform_all b1 calls in
      stopTiming now' b2 = Throw (Error "stopTiming called twice!") b2
      ∧ rootNode b2 = rootNode b1.
Proof.
  unfold stopTiming at 1. run_js.
  destruct (startHrTime b) as [t|] eqn:Ht; [|discriminate].
  destruct (stopped b) eqn:Hs; [discriminate|].
  intros [= <- <-]. split; [reflexivity|].
  intros calls now'. set (b2 := perform_all _ calls).
  assert (stopped b2 = true ∧ is_Some (startHrTime b2)
          ∧ rootNode b2 = rootNode (set_stopped true b)) as (Hs2 & [t2 Ht2] & Hr).
  { apply stopped_stays_all; simpl; eauto. }
  split; [|exact Hr].
  unfold stopTiming. run_js. rewrite Ht2, Hs2. reflexivity.
Qed.

Lemma stopTiming_twice_throws_witness :
  stopTiming (12, 0) stopped_builder
  = Throw (Error "stopTiming called twice!") stopped_builder.
Proof.
  destruct (stopTiming_twice_throws started_builder stopped_builder (11, 0)
              (1000000000, 0%nat)) as [_ H].
  - vm_compute. reflexivity.
  - exact (proj1 (H [] (12, 0))).
Defined.

(** [addError] on any builder in the Started window whose root is registered
    under the empty path. *)
Lemma addError_returns (b : Builder)
    (path : option (list Key)) (err : TraceError) :
  phase b = Started →
  nodes b !! rootResponsePath = Some (rootNode b) →
  ∃ b' target,
    addError path err b = Return tt b'
    ∧ target = errorNode b path
    ∧ (∀ p n, path = Some p → nodes b !! join "." p = Some n → target = n)
    ∧ (path = None ∨ path = Some []
       ∨ (∃ p, path = Some p ∧ nodes b !! join "." p = None) → target = rootNode b)
    ∧ (∀ node, heap b !! target = Some node →
         heap b' !! target = Some (push_error err node))
    ∧ (∀ other, other ≠ target → heap b' !! other = heap b !! other)
    ∧ nodes b' = nodes b ∧ rootNode b' = rootNode b ∧ phase b' = Started.
Proof.
  intros Hphase Hroot.
  exists (set_heap (alter (push_error err) (errorNode b path) (heap b)) b),
         (errorNode b path).
  unfold phase in Hphase.
  destruct (stopped b) eqn:Hs; [discriminate|].
  destruct (startHrTime b) as [t|] eqn:Ht; [|discriminate].
  split.
  { unfold addError. run_js. rewrite Ht, Hs. unfold errorNode.
    destruct path as [p|]; [|reflexivity].
    destruct (nodes b !! join "." p); reflexivity. }
  split; [reflexivity|].
  split.
  { intros p n -> Hn. unfold errorNode. rewrite Hn. reflexivity. }
  split.
  { intros [->|[->|(p & -> & Hp)]]; unfold errorNode; simpl.
    - reflexivity.
    - unfold rootResponsePath in Hroot. simpl in Hroot. rewrite Hroot. reflexivity.
    - rewrite Hp. reflexivity. }
  split.
  { intros node Hnode. simpl. rewrite list_lookup_alter_eq, Hnode. reflexivity. }
  split.
  { intros other Hne. simpl. apply list_lookup_alter_ne. congruence. }
  simpl. unfold phase. simpl. rewrite Hs, Ht. done.
Qed.

End LifecycleProperties.

(** *** Path strings *)

Global Arguments TreeBuilder.responsePathAsString : simpl never.

Section Strings.
Import TreeBuilder Shape.

Lemma pretty_N_char_digit x : is_digit (pretty_N_char x) = true.
Proof. unfold pretty_N_char. by repeat case_match. Qed.

Lemma pretty_N_go_digits x s :
  all_digits s = true → all_digits (pretty_N_go x s) = true.
Proof.
  revert s. induction (N.lt_wf_0 x) as [x _ IH]; intros s Hs.
  destruct (decide (x = 0)%N) as [->|Hx].
  - by rewrite pretty_N_go_0.
  - rewrite pretty_N_go_step by lia. apply IH.
    + apply N.div_lt; lia.
    + simpl. by rewrite pretty_N_char_digit, Hs.
Qed.

Lemma pretty_N_go_nonempty x s : s ≠ "" → pretty_N_go x s ≠ "".
Proof.
  revert s. induction (N.lt_wf_0 x) as [x _ IH]; intros s Hs.
  destruct (decide (x = 0)%N) as [->|Hx].
  - by rewrite pretty_N_go_0.
  - rewrite pretty_N_go_step by lia. apply IH; [apply N.div_lt; lia|done].
Qed.

Lemma pretty_N_digits (n : N) : all_digits (pretty n) = true ∧ pretty n ≠ "".
Proof.
  unfold pretty, pretty_N. case_decide; [done|]. split.
  - by apply pretty_N_go_digits.
  - rewrite pretty_N_go_step by lia. by apply pretty_N_go_nonempty.
Qed.

Lemma all_digits_no_dot s : all_digits s = true → has_dot s = false.
Proof.
  induction s as [|c s IH]; [done|]. simpl.
  intros [Hc Hs]%andb_true_iff. rewrite (IH Hs), orb_false_r.
  apply bool_decide_eq_false. intros ->. done.
Qed.

Lemma key_to_string_no_dot k : valid_key k = true → has_dot (key_to_string k) = false.
Proof.
  destruct k as [s|n]; simpl.
  - destruct s as [|c s]; [done|]. simpl.
    intros [_ H]%andb_true_iff. by apply negb_true_iff in H.
  - intros _. apply all_digits_no_dot, pretty_N_digits.
Qed.

Lemma key_to_string_nonempty k : valid_key k = true → key_to_string k ≠ "".
Proof.
  destruct k as [s|n]; simpl.
  - by destruct s.
  - intros _. apply pretty_N_digits.
Qed.

Lemma key_to_string_inj k1 k2 :
  valid_key k1 = true → valid_key k2 = true →
  key_to_string k1 = key_to_string k2 → k1 = k2.
Proof.
  destruct k1 as [s1|n1], k2 as [s2|n2]; simpl; intros H1 H2 Heq.
  - by subst.
  - exfalso. destruct (pretty_N_digits n2) as [Hd Hne]. rewrite <-Heq in Hd, Hne.
    destruct s1 as [|c s1]; [done|]. simpl in *.
    apply andb_true_iff in H1 as [H1 _]. apply andb_true_iff in Hd as [Hd _].
    by rewrite Hd in H1.
  - exfalso. destruct (pretty_N_digits n1) as [Hd Hne]. rewrite Heq in Hd, Hne.
    destruct s2 as [|c s2]; [done|]. simpl in *.
    apply andb_true_iff in H2 as [H2 _]. apply andb_true_iff in Hd as [Hd _].
    by rewrite Hd in H2.
  - f_equal. by apply (inj pretty).
Qed.

Lemma string_app_nil (t : string) : "" +:+ t = t.
Proof. reflexivity. Qed.

Lemma string_app_cons c (s t : string) : String c s +:+ t = String c (s +:+ t).
Proof. reflexivity. Qed.

Lemma has_dot_app s t : has_dot (s +:+ t) = has_dot s || has_dot t.
Proof.
  induction s as [|c s IH]; [done|].
  rewrite string_app_cons. simpl. by rewrite IH, orb_assoc.
Qed.

Lemma app_dot_inj s1 t1 s2 t2 :
  has_dot t1 = false → has_dot t2 = false →
  s1 +:+ "." +:+ t1 = s2 +:+ "." +:+ t2 → s1 = s2 ∧ t1 = t2.
Proof.
  intros H1 H2. revert s2. induction s1 as [|c s1 IH]; intros [|c2 s2] Heq;
    rewrite ?string_app_nil, ?string_app_cons, ?string_app_nil in Heq.
  - by injection Heq as ->.
  - injection Heq as <- ->. rewrite has_dot_app in H1. simpl in H1.
    by rewrite orb_true_r in H1.
  - injection Heq as -> <-. rewrite has_dot_app in H2. simpl in H2.
    by rewrite orb_true_r in H2.
  - injection Heq as -> Heq. destruct (IH _ Heq) as [-> ->]. done.
Qed.

Lemma responsePathAsString_root k :
  responsePathAsString (Some (Path None k)) = key_to_string k.
Proof. reflexivity. Qed.

Lemma join_snoc sep l k :
  l ≠ [] → join sep (l ++ [k]) = join sep l +:+ sep +:+ key_to_string k.
Proof.
  destruct l as [|x l]; [done|]. intros _. simpl. by rewrite foldl_app.
Qed.

Lemma responsePathAsString_cons pp k :
  responsePathAsString (Some (Path (Some pp) k))
  = responsePathAsString (Some pp) +:+ "." +:+ key_to_string k.
Proof.
  unfold responsePathAsString, responsePathAsArray. simpl flattened.
  rewrite reverse_cons. apply join_snoc.
  destruct pp as [[?|] ?]; simpl; rewrite ?reverse_cons; by destruct (reverse _).
Qed.

Lemma ResponsePath_ind' (P : ResponsePath → Prop) :
  (∀ k, P (Path None k)) →
  (∀ pp k, P pp → P (Path (Some pp) k)) →
  ∀ p, P p.
Proof.
  intros Hroot Hcons. fix IH 1. intros [[pp|] k].
  - apply Hcons, IH.
  - apply Hroot.
Qed.

Lemma responsePathAsString_nonempty p :
  valid_path p = true → responsePathAsString (Some p) ≠ "".
Proof.
  destruct p as [[pp|] k]; simpl valid_path.
  - intros _. rewrite responsePathAsString_cons.
    by destruct (responsePathAsString (Some pp)).
  - rewrite responsePathAsString_root. apply key_to_string_nonempty.
Qed.

Lemma responsePathAsString_has_dot pp k :
  has_dot (responsePathAsString (Some (Path (Some pp) k))) = true.
Proof.
  rewrite responsePathAsString_cons, has_dot_app. simpl. by rewrite orb_true_r.
Qed.

Lemma responsePathAsString_inj p q :
  valid_path p = true → valid_path q = true →
  responsePathAsString (Some p) = responsePathAsString (Some q) → p = q.
Proof.
  revert q. induction p as [k|pp k IH] using ResponsePath_ind';
    intros [[qq|] k2]; simpl valid_path; intros Hp Hq Heq.
  - exfalso. rewrite responsePathAsString_root in Heq.
    pose proof (key_to_string_no_dot k Hp) as Hd.
    by rewrite Heq, responsePathAsString_has_dot in Hd.
  - rewrite !responsePathAsString_root in Heq. f_equal.
    by apply key_to_string_inj.
  - apply andb_true_iff in Hp as [Hk Hp]. apply andb_true_iff in Hq as [Hk2 Hq].
    rewrite !responsePathAsString_cons in Heq.
    apply app_dot_inj in Heq as [Hs Hkk]; [|by apply key_to_string_no_dot..].
    f_equal; [f_equal; by apply IH|by apply key_to_string_inj].
  - exfalso. apply andb_true_iff in Hp as [Hk Hp].
    rewrite (responsePathAsString_root k2) in Heq.
    pose proof (key_to_string_no_dot k2 Hq) as Hd.
    by rewrite <-Heq, responsePathAsString_has_dot in Hd.
Qed.

Lemma responsePathAsString_child p :
  valid_path p = true →
  responsePathAsString (Some p) = childPath (responsePathAsString (prev p)) (key p).
Proof.
  destruct p as [[pp|] k]; simpl valid_path; intros Hp; unfold childPath; simpl prev.
  - apply andb_true_iff in Hp as [_ Hp]. rewrite decide_False.
    + apply responsePathAsString_cons.
    + by apply responsePathAsString_nonempty.
  - reflexivity.
Qed.

End Strings.

Section Creation.
Import TreeBuilder Shape Lifecycle.

(** *** Creation of nodes *)

Lemma newNode_unfold path :
  newNode path =
  (node ← alloc new_Node;
   match key path with
   | KNumber id => update node (set_index id)
   | KString id => update node (set_fieldName id)
   end;;
   modify (λ b, set_nodes (<[responsePathAsString (Some path) := node]> (nodes b)) b);;
   parentNode ← ensureParentNode path;
   update parentNode (push_child node);;
   Js.ret node).
Proof. by destruct path as [[pp|] k]. Qed.

Lemma alter_last {A} (f : A → A) (l : list A) (x : A) :
  alter f (length l) (l ++ [x]) = l ++ [f x].
Proof.
  replace (length l) with (length l + 0)%nat by lia. by rewrite alter_app_r.
Qed.

Lemma newNode_eq path b :
  newNode path b =
  match ensureParentNode path (registered path b) with
  | Return parentNode b3 => Return (length (heap b)) (attached parentNode (length (heap b)) b3)
  | Throw e b3 => Throw e b3
  end.
Proof.
  rewrite newNode_unfold. run_js. unfold registered, keyedNode.
  destruct (key path); simpl; rewrite alter_last; reflexivity.
Qed.

Lemma nodeKey_keyedNode k : nodeKey (keyedNode k) = Some k.
Proof. by destruct k. Qed.

Lemma child_keyedNode k : child (keyedNode k) = [].
Proof. by destruct k. Qed.

Lemma valid_path_key p : valid_path p = true → valid_key (key p) = true.
Proof. destruct p as [[pp|] k]; simpl; [|done]. by intros [? ?]%andb_true_iff. Qed.

Lemma string_length_app (s t : string) :
  String.length (s +:+ t) = (String.length s + String.length t)%nat.
Proof.
  induction s as [|c s IH]; [done|]. rewrite string_app_cons. simpl. by rewrite IH.
Qed.

Lemma str_prev_ne p : valid_path p = true → str (prev p) ≠ str (Some p).
Proof.
  intros Hp Heq. destruct p as [[pp|] k]; simpl prev in Heq.
  - rewrite responsePathAsString_cons in Heq.
    apply (f_equal String.length) in Heq. revert Heq.
    rewrite !string_length_app. simpl. lia.
  - by apply (responsePathAsString_nonempty _ Hp).
Qed.

(** Creating and registering the node of an unregistered path keeps the
    shape, with the new node as one more orphan. *)
Lemma register_orphan path orphans b :
  well_shaped orphans b → valid_path path = true →
  nodes b !! str (Some path) = None →
  well_shaped (length (heap b) :: orphans) (registered path b).
Proof.
  intros [Hroot Hrk Halloc Hinj Hreg Hdom Hkey Hchild Hparent Horph] Hvalid Hfresh.
  pose proof (responsePathAsString_nonempty _ Hvalid) as Hne.
  assert (∀ i x, heap b !! i = Some x → heap (registered path b) !! i = Some x) as Hold.
  { intros i x Hi. simpl. by apply lookup_app_l_Some. }
  assert (∀ k n, nodes b !! k = Some n → nodes (registered path b) !! k = Some n) as Holdn.
  { intros k n Hk. simpl. rewrite lookup_insert_ne; [done|].
    intros Heq. rewrite <-Heq, Hfresh in Hk. discriminate. }
  split.
  - apply Holdn, Hroot.
  - intros rn. simpl. intros [[_ Hrn]|[Hlen _]]%lookup_snoc_Some; [by eapply Hrk|].
    apply Halloc in Hroot. lia.
  - intros k n. simpl. rewrite length_app. simpl.
    intros [[_ <-]|[_ Hn]]%lookup_insert_Some; [lia|]. apply Halloc in Hn. lia.
  - intros k1 k2 n. simpl.
    intros [[<- <-]|[Hk1 Hn1]]%lookup_insert_Some [[<- Hn2]|[Hk2 Hn2]]%lookup_insert_Some.
    + done.
    + apply Halloc in Hn2. lia.
    + apply Halloc in Hn1. lia.
    + by eapply Hinj.
  - intros n. simpl. rewrite length_app. simpl. intros Hn.
    destruct (decide (n = length (heap b))) as [->|Hneq].
    + exists (str (Some path)). by rewrite lookup_insert_eq.
    + destruct (Hreg n) as [k Hk]; [lia|]. exists k. by apply Holdn.
  - intros k n. simpl. intros [[<- _]|[_ Hn]]%lookup_insert_Some; [|by eapply Hdom].
    right. eauto.
  - intros q n cn Hq. simpl.
    intros [[Hs <-]|[Hs Hn]]%lookup_insert_Some.
    + apply responsePathAsString_inj in Hs as <-; [|done..].
      rewrite lookup_app_r by lia. rewrite Nat.sub_diag. simpl.
      intros [= <-]. apply nodeKey_keyedNode.
    + rewrite lookup_app_l by (by eapply Halloc). by apply Hkey.
  - intros k p pn. simpl.
    intros [[<- <-]|[Hk Hp]]%lookup_insert_Some.
    + rewrite lookup_app_r by lia. rewrite Nat.sub_diag. simpl. intros [= <-].
      rewrite child_keyedNode. split; [constructor|]. by intros c ?%elem_of_nil.
    + rewrite lookup_app_l by (by eapply Halloc). intros Hpn.
      destruct (Hchild k p pn Hp Hpn) as [Hnd Hc]. split; [done|].
      intros c Hin. destruct (Hc c Hin) as (cn & ck & H1 & H2 & H3 & H4).
      exists cn, ck. split; [by apply lookup_app_l_Some|]. split; [done|]. split; [done|].
      by apply Holdn in H4.
  - intros q n Hq. simpl. intros Hn Hnotin.
    apply not_elem_of_cons in Hnotin as [Hneq Hnotin].
    apply lookup_insert_Some in Hn as [[_ <-]|[_ Hn]]; [done|].
    destruct (Hparent q n Hq Hn Hnotin) as (p & pn & H1 & H2 & H3).
    exists p, pn. split; [by apply Holdn in H1|]. split; [by apply lookup_app_l_Some|done].
  - intros o Ho. simpl. rewrite length_app. simpl.
    assert (∀ p pn, (heap b ++ [keyedNode (key path)]) !! p = Some pn →
              length (heap b) ∉ child pn) as Hnew.
    { intros p pn [[Hlt Hpn]|[_ <-]]%lookup_snoc_Some.
      - destruct (Hreg p Hlt) as [k Hk]. destruct (Hchild k p pn Hk Hpn) as [_ Hc].
        intros Hin. destruct (Hc _ Hin) as (cn & _ & Hcn & _).
        apply lookup_lt_Some in Hcn. lia.
      - rewrite child_keyedNode. apply not_elem_of_nil. }
    apply elem_of_cons in Ho as [->|Ho]; [split; [lia|exact Hnew]|].
    destruct (Horph o Ho) as [Hlt Hno]. split; [lia|].
    intros p pn [[_ Hpn]|[_ <-]]%lookup_snoc_Some; [by eapply Hno|].
    rewrite child_keyedNode. apply not_elem_of_nil.
Qed.

Lemma alter_lookup_Some {A} (f : A → A) (l : list A) i j x' :
  alter f i l !! j = Some x' →
  ∃ x, l !! j = Some x ∧ x' = (if decide (i = j) then f x else x).
Proof.
  destruct (decide (i = j)) as [->|Hne].
  - rewrite list_lookup_alter_eq. destruct (l !! j) as [x|]; [|done].
    intros [= <-]. eauto.
  - rewrite list_lookup_alter_ne by done. eauto.
Qed.

Lemma alter_lookup_of {A} (f : A → A) (l : list A) i j x :
  l !! j = Some x →
  alter f i l !! j = Some (if decide (i = j) then f x else x).
Proof.
  intros Hj. destruct (decide (i = j)) as [->|Hne].
  - by rewrite list_lookup_alter_eq, Hj.
  - by rewrite list_lookup_alter_ne.
Qed.

Lemma nodeKey_push_child c x : nodeKey (push_child c x) = nodeKey x.
Proof. reflexivity. Qed.

(** Pushing the orphan of [path] on the child list of the node of the
    parent path keeps the shape, with one orphan less. *)
Lemma attach_orphan path orphans b n p :
  well_shaped (n :: orphans) b → valid_path path = true →
  nodes b !! str (Some path) = Some n →
  nodes b !! str (prev path) = Some p →
  n ∉ orphans →
  well_shaped orphans (attached p n b).
Proof.
  intros [Hroot Hrk Halloc Hinj Hreg Hdom Hkey Hchild Hparent Horph]
    Hvalid Hn Hp Hnotin.
  destruct (Horph n) as [Hnlt Hnorphan]; [left|].
  split; simpl.
  - done.
  - intros rn (x & Hx & ->)%alter_lookup_Some.
    case_decide; [rewrite nodeKey_push_child|]; by eapply Hrk.
  - intros k m Hm. rewrite length_alter. by eapply Halloc.
  - done.
  - intros m. rewrite length_alter. apply Hreg.
  - done.
  - intros q m cn Hq Hm (x & Hx & ->)%alter_lookup_Some.
    case_decide; [rewrite nodeKey_push_child|]; by eapply Hkey.
  - intros k p' pn' Hp' (pn & Hpn & ->)%alter_lookup_Some.
    destruct (Hchild k p' pn Hp' Hpn) as [Hnd Hc].
    assert (∀ c, c ∈ child pn →
              ∃ cn ck, alter (push_child n) p (heap b) !! c = Some cn
                       ∧ nodeKey cn = Some ck ∧ valid_key ck = true
                       ∧ nodes b !! childPath k ck = Some c) as Hc'.
    { intros c Hin. destruct (Hc c Hin) as (cn & ck & H1 & H2 & H3 & H4).
      eexists _, ck. split; [by apply alter_lookup_of|].
      split; [|done]. case_decide; [by rewrite nodeKey_push_child|done]. }
    case_decide as Hpp; [|done]. subst p'. simpl. split.
    + apply NoDup_app. split; [done|]. split; [|apply NoDup_singleton].
      intros c Hin ->%list_elem_of_singleton. by eapply Hnorphan.
    + intros c [Hin| ->%list_elem_of_singleton]%elem_of_app; [by apply Hc'|].
      destruct (lookup_lt_is_Some_2 (heap b) n Hnlt) as [cn Hcn].
      eexists _, (key path). split; [by apply alter_lookup_of|].
      split.
      { case_decide; [rewrite nodeKey_push_child|]; by eapply Hkey. }
      split; [by apply valid_path_key|].
      rewrite (Hinj k (str (prev path)) p Hp' Hp).
      by rewrite <-responsePathAsString_child.
  - intros q m Hq Hm Hmo.
    destruct (decide (m = n)) as [->|Hneq].
    + assert (q = path) as ->.
      { apply responsePathAsString_inj; [done..|]. by eapply Hinj. }
      destruct (lookup_lt_is_Some_2 (heap b) p (Halloc _ _ Hp)) as [pn Hpn].
      eexists p, _. split; [done|]. split; [by apply alter_lookup_of|].
      rewrite decide_True by done. simpl. apply elem_of_app. right. left.
    + destruct (Hparent q m Hq Hm) as (p0 & pn0 & H1 & H2 & H3).
      { intros [?|?]%elem_of_cons; done. }
      eexists p0, _. split; [done|]. split; [by apply alter_lookup_of|].
      case_decide; [|done]. simpl. apply elem_of_app. by left.
  - intros o Ho. destruct (Horph o) as [Hlt Hno]; [by right|].
    rewrite length_alter. split; [done|].
    intros p' pn' (pn & Hpn & ->)%alter_lookup_Some.
    case_decide; [|by eapply Hno]. simpl.
    intros [Hin| ->%list_elem_of_singleton]%elem_of_app; [by eapply Hno|done].
Qed.

Lemma ensureParentNode_found path b p :
  nodes b !! str (prev path) = Some p → ensureParentNode path b = Return p b.
Proof. intros Hp. unfold ensureParentNode. run_js. by rewrite Hp. Qed.

Lemma ensureParentNode_missing pp k b :
  nodes b !! str (Some pp) = None →
  ensureParentNode (Path (Some pp) k) b = newNode pp b.
Proof.
  intros Hp. unfold ensureParentNode. run_js.
  change (prev (Path (Some pp) k)) with (Some pp). by rewrite Hp.
Qed.

(** [newNode] on an unregistered valid path returns a new node and keeps
    the shape: it registers the path and those of its prefixes that were
    missing, and nothing else. *)
Lemma newNode_fresh path : ∀ orphans b,
  well_shaped orphans b → valid_path path = true →
  nodes b !! str (Some path) = None →
  ∃ b', newNode path b = Return (length (heap b)) b'
    ∧ well_shaped orphans b'
    ∧ startHrTime b' = startHrTime b ∧ stopped b' = stopped b
    ∧ rootNode b' = rootNode b
    ∧ (length (heap b) < length (heap b'))%nat
    ∧ (∀ k n, nodes b !! k = Some n → nodes b' !! k = Some n)
    ∧ nodes b' !! str (Some path) = Some (length (heap b))
    ∧ (∀ k, is_Some (nodes b' !! k) →
         is_Some (nodes b !! k) ∨ ∃ q, q ∈ ancestors path ∧ str (Some q) = k).
Proof.
  induction path as [k|pp k IH] using ResponsePath_ind'; intros orphans b Hws Hvalid Hfresh.
  - pose proof (register_orphan _ _ _ Hws Hvalid Hfresh) as Hws2.
    assert (length (heap b) ∉ orphans) as Hnotin.
    { intros Hin. apply (ws_orphans _ _ Hws) in Hin as [Hlt _]. lia. }
    rewrite newNode_eq.
    rewrite (ensureParentNode_found _ _ (rootNode b)); [|exact (ws_root _ _ Hws2)].
    eexists. split; [reflexivity|]. split.
    { apply (attach_orphan (Path None k)); try done.
      - simpl. by rewrite lookup_insert_eq.
      - exact (ws_root _ _ Hws2). }
    simpl. rewrite length_alter, length_app. simpl.
    split_and!; [done|done|done|lia|..].
    + intros k' n' Hk'. rewrite lookup_insert_ne; [done|].
      intros Heq. rewrite <-Heq, Hfresh in Hk'. discriminate.
    + by rewrite lookup_insert_eq.
    + intros k' [n' [[<- _]|[_ Hn']]%lookup_insert_Some]; [|eauto].
      right. exists (Path None k). split; [left|done].
  - pose proof (register_orphan _ _ _ Hws Hvalid Hfresh) as Hws2.
    assert (length (heap b) ∉ orphans) as Hnotin.
    { intros Hin. apply (ws_orphans _ _ Hws) in Hin as [Hlt _]. lia. }
    assert (nodes (registered (Path (Some pp) k) b) !! str (Some (Path (Some pp) k))
            = Some (length (heap b))) as Hreg.
    { simpl. by rewrite lookup_insert_eq. }
    assert (∀ k' n', nodes b !! k' = Some n' →
              nodes (registered (Path (Some pp) k) b) !! k' = Some n') as Hmono.
    { intros k' n' Hk'. simpl. rewrite lookup_insert_ne; [done|].
      intros Heq. rewrite <-Heq, Hfresh in Hk'. discriminate. }
    rewrite newNode_eq.
    destruct (nodes (registered (Path (Some pp) k) b) !! str (Some pp)) as [p|] eqn:Hp.
    + rewrite (ensureParentNode_found _ _ p); [|exact Hp].
      eexists. split; [reflexivity|]. split.
      { by apply (attach_orphan (Path (Some pp) k)). }
      simpl. rewrite length_alter, length_app. simpl.
      split_and!; [done|done|done|lia|..].
      * exact Hmono.
      * by rewrite lookup_insert_eq.
      * intros k' [n' [[<- _]|[_ Hn']]%lookup_insert_Some]; [|eauto].
        right. exists (Path (Some pp) k). split; [left|done].
    + rewrite ensureParentNode_missing by exact Hp.
      simpl in Hvalid. apply andb_true_iff in Hvalid as [Hk Hpp].
      destruct (IH _ _ Hws2 Hpp Hp)
        as (b3 & Hrun & Hws3 & Ht & Hs & Hr & Hlen & Hmono3 & Hreg3 & Hdom3).
      rewrite Hrun. eexists. split; [reflexivity|]. split.
      { apply (attach_orphan (Path (Some pp) k)); try done.
        - simpl. by rewrite Hk, Hpp.
        - by apply Hmono3. }
      simpl in *. rewrite length_alter. rewrite length_app in Hlen. simpl in Hlen.
      split_and!; [done|done|done|lia|..].
      * intros k' n' Hk'. by apply Hmono3, Hmono.
      * by apply Hmono3.
      * intros k' Hk'. destruct (Hdom3 k' Hk') as [[n' Hn']|(q & Hq & <-)].
        -- apply lookup_insert_Some in Hn' as [[<- _]|[_ Hn']]; [|eauto].
           right. exists (Path (Some pp) k). split; [left|done].
        -- right. exists q. split; [by right|done].
Qed.

(** Assignments to a node that leave its segment and its child list alone
    (types, offsets, errors) keep the shape. *)
Lemma payload_update orphans b i f :
  well_shaped orphans b →
  (∀ x, child (f x) = child x) → (∀ x, nodeKey (f x) = nodeKey x) →
  well_shaped orphans (set_heap (alter f i (heap b)) b).
Proof.
  intros [Hroot Hrk Halloc Hinj Hreg Hdom Hkey Hchild Hparent Horph] Hfc Hfk.
  split; simpl.
  - done.
  - intros rn (x & Hx & ->)%alter_lookup_Some.
    case_decide; [rewrite Hfk|]; by eapply Hrk.
  - intros k m Hm. rewrite length_alter. by eapply Halloc.
  - done.
  - intros m. rewrite length_alter. apply Hreg.
  - done.
  - intros q m cn Hq Hm (x & Hx & ->)%alter_lookup_Some.
    case_decide; [rewrite Hfk|]; by eapply Hkey.
  - intros k p pn' Hp (pn & Hpn & ->)%alter_lookup_Some.
    destruct (Hchild k p pn Hp Hpn) as [Hnd Hc].
    assert (child (if decide (i = p) then f pn else pn) = child pn) as ->.
    { case_decide; [apply Hfc|done]. }
    split; [done|]. intros c Hin.
    destruct (Hc c Hin) as (cn & ck & H1 & H2 & H3 & H4).
    eexists _, ck. split; [by apply alter_lookup_of|].
    split; [|done]. case_decide; [by rewrite Hfk|done].
  - intros q m Hq Hm Hmo.
    destruct (Hparent q m Hq Hm Hmo) as (p0 & pn0 & H1 & H2 & H3).
    eexists p0, _. split; [done|]. split; [by apply alter_lookup_of|].
    case_decide; [by rewrite Hfc|done].
  - intros o Ho. destruct (Horph o Ho) as [Hlt Hno].
    rewrite length_alter. split; [done|].
    intros p pn' (pn & Hpn & ->)%alter_lookup_Some.
    case_decide; [rewrite Hfc|]; by eapply Hno.
Qed.

Lemma phase_Started b :
  phase b = Started ↔ stopped b = false ∧ is_Some (startHrTime b).
Proof.
  unfold phase. destruct (stopped b), (startHrTime b) as [t|]; split;
    first [ by intros [? [? ?]] | discriminate | by eauto ].
Qed.

Lemma willResolveField_fresh info now b :
  phase b = Started → well_shaped [] b →
  valid_path (info_path info) = true →
  nodes b !! str (Some (info_path info)) = None →
  ∃ b', willResolveField info now b = Return (length (heap b)) b'
    ∧ well_shaped [] b' ∧ phase b' = Started
    ∧ rootNode b' = rootNode b
    ∧ (∀ k n, nodes b !! k = Some n → nodes b' !! k = Some n)
    ∧ nodes b' !! str (Some (info_path info)) = Some (length (heap b))
    ∧ (∀ k, is_Some (nodes b' !! k) →
         is_Some (nodes b !! k)
         ∨ ∃ q, q ∈ ancestors (info_path info) ∧ str (Some q) = k).
Proof.
  intros Hp Hws Hvalid Hfresh.
  destruct (newNode_fresh _ _ _ Hws Hvalid Hfresh)
    as (b1 & Hrun & Hws1 & Ht & Hs & Hr & Hlen & Hmono & Hreg & Hdom).
  apply phase_Started in Hp as [Hs0 [t0 Ht0]].
  unfold willResolveField. run_js. rewrite Ht0, Hs0, Hrun.
  eexists. split; [reflexivity|]. split.
  { repeat apply payload_update; done. }
  split.
  { apply phase_Started. simpl. rewrite Hs, Ht, Ht0. split; [done|by eexists]. }
  simpl. done.
Qed.


(** *** The invariant along the calls of a request *)

Lemma ancestors_self p : p ∈ ancestors p.
Proof. destruct p as [[pp|] k]; left. Qed.

Lemma ancestors_valid p : ∀ q,
  valid_path p = true → q ∈ ancestors p → valid_path q = true.
Proof.
  induction p as [k|pp k IH] using ResponsePath_ind'; intros q Hp Hq; simpl in Hq.
  - by apply list_elem_of_singleton in Hq as ->.
  - apply elem_of_cons in Hq as [->|Hq]; [done|].
    simpl in Hp. apply andb_true_iff in Hp as [_ Hp]. by apply IH.
Qed.

Lemma registered_ancestors b q :
  well_shaped [] b → valid_path q = true →
  is_Some (nodes b !! str (Some q)) →
  ∀ a, a ∈ ancestors q → is_Some (nodes b !! str (Some a)).
Proof.
  intros Hws. induction q as [k|pp k IH] using ResponsePath_ind';
    intros Hq Hreg a Ha; simpl in Ha.
  - by apply list_elem_of_singleton in Ha as ->.
  - apply elem_of_cons in Ha as [->|Ha]; [done|].
    destruct Hreg as [n Hn].
    destruct (ws_parent _ _ Hws _ _ Hq Hn) as (p & _ & Hp & _); [apply not_elem_of_nil|].
    simpl in Hq. apply andb_true_iff in Hq as [_ Hq].
    apply IH; [done| |done]. simpl prev in Hp. by eexists.
Qed.

Lemma tree_inv_init t0 : tree_inv [] (perform new_Builder (CallStartTiming t0)).
Proof.
  assert (∀ k n, ({[rootResponsePath := 0%nat]} : gmap string nat) !! k = Some n →
            k = "" ∧ n = 0%nat) as Hone.
  { intros k n [<- <-]%lookup_singleton_Some. done. }
  split; [|split; [done|split; [constructor|]]].
  - split; simpl.
    + by rewrite lookup_singleton_eq.
    + by intros rn [= <-].
    + intros k n [_ ->]%Hone. lia.
    + intros k1 k2 n [-> _]%Hone [-> _]%Hone. done.
    + intros n Hn. exists "". assert (n = 0%nat) as -> by lia.
      by rewrite lookup_singleton_eq.
    + intros k n [-> _]%Hone. by left.
    + intros q n cn Hq [Hs _]%Hone. by destruct (responsePathAsString_nonempty q Hq).
    + intros k p pn [_ ->]%Hone [= <-]. split; [constructor|].
      by intros c ?%elem_of_nil.
    + intros q n Hq [Hs _]%Hone. by destruct (responsePathAsString_nonempty q Hq).
    + by intros o ?%elem_of_nil.
  - intros k. simpl. split.
    + intros [n [-> _]%Hone]. by left.
    + intros [->|(q & (p & Hp & _) & _)]; [by rewrite lookup_singleton_eq|].
      by apply elem_of_nil in Hp.
Qed.

(** A path that is no prefix of a path started before is unregistered. *)
Lemma in_order_fresh seen b q :
  tree_inv seen b → valid_path q = true →
  forallb (λ p, negb (bool_decide (q ∈ ancestors p))) seen = true →
  nodes b !! str (Some q) = None.
Proof.
  intros (Hws & _ & Hvalid & Hdom) Hq Hnot.
  destruct (nodes b !! str (Some q)) as [n|] eqn:Hn; [|done]. exfalso.
  destruct (proj1 (Hdom _) (mk_is_Some _ _ Hn)) as [Hempty|(q' & (p & Hp & Hq') & Heq)].
  - by destruct (responsePathAsString_nonempty q Hq).
  - assert (q' = q) as ->.
    { apply responsePathAsString_inj; [|done..].
      eapply ancestors_valid; [|done]. by eapply (proj1 (Forall_forall _ _) Hvalid). }
    rewrite forallb_forall in Hnot. specialize (Hnot p).
    rewrite negb_true_iff, bool_decide_eq_false in Hnot.
    apply Hnot; [|done]. by apply list_elem_of_In.
Qed.

Lemma tree_inv_step seen b c :
  tree_inv seen b → in_window c = true →
  in_order seen (started_paths [c]) = true →
  tree_inv (started_paths [c] ++ seen) (perform b c).
Proof.
  intros Hinv Hwin Hord. destruct c as [|info now|node now|path err|]; try done.
  - simpl in Hord. rewrite andb_true_r in Hord.
    apply andb_true_iff in Hord as [Hq Hnot].
    pose proof (in_order_fresh _ _ _ Hinv Hq Hnot) as Hfresh.
    destruct Hinv as (Hws & Hp & Hvalid & Hdom).
    destruct (willResolveField_fresh info now b Hp Hws Hq Hfresh)
      as (b' & Hrun & Hws' & Hp' & Hr & Hmono & Hreg & Hdom').
    simpl. rewrite Hrun. simpl.
    split; [done|]. split; [done|]. split; [by constructor|].
    intros k. split.
    + intros Hk. destruct (Hdom' k Hk) as [Hold|(q & Hq' & <-)].
      * apply Hdom in Hold as [->|(q & (p & Hp0 & Hq0) & <-)]; [by left|].
        right. exists q. split; [|done]. exists p. split; [by right|done].
      * right. exists q. split; [|done]. exists (info_path info). split; [left|done].
    + intros [->|(q & (p & Hp0 & Hq0) & <-)].
      * exists (rootNode b). apply Hmono. exact (ws_root _ _ Hws).
      * apply elem_of_cons in Hp0 as [->|Hp0].
        -- by apply (registered_ancestors b' (info_path info)).
        -- destruct (proj2 (Hdom (str (Some q)))) as [n Hn].
           { right. exists q. split; [|done]. by exists p. }
           exists n. by apply Hmono.
  - destruct Hinv as (Hws & Hp & Hvalid & Hdom). simpl.
    split; [by apply payload_update|]. split; [done|]. done.
  - destruct Hinv as (Hws & Hp & Hvalid & Hdom).
    pose proof Hp as Hp'. apply phase_Started in Hp' as [Hs [t Ht]].
    simpl. unfold addError. run_js. rewrite Ht, Hs. simpl.
    split; [by apply payload_update|]. split; [|done].
    apply phase_Started. simpl. rewrite Hs, Ht. split; [done|by eexists].
Qed.

Lemma started_paths_cons c calls :
  started_paths (c :: calls) = started_paths [c] ++ started_paths calls.
Proof. by destruct c. Qed.

Lemma in_order_app seen ps qs :
  in_order seen (ps ++ qs) = in_order seen ps && in_order (reverse ps ++ seen) qs.
Proof.
  revert seen. induction ps as [|p ps IH]; intros seen; [done|].
  simpl. rewrite IH, reverse_cons, <-app_assoc. simpl.
  by rewrite !andb_assoc.
Qed.

Lemma tree_inv_run calls : ∀ seen b,
  tree_inv seen b → forallb in_window calls = true →
  in_order seen (started_paths calls) = true →
  tree_inv (reverse (started_paths calls) ++ seen) (perform_all b calls).
Proof.
  induction calls as [|c calls IH]; intros seen b Hinv Hwin Hord; [done|].
  simpl in Hwin. apply andb_true_iff in Hwin as [Hc Hwin].
  rewrite started_paths_cons, in_order_app in Hord.
  apply andb_true_iff in Hord as [Hord1 Hord2].
  pose proof (tree_inv_step _ _ _ Hinv Hc Hord1) as Hinv1.
  assert (reverse (started_paths [c]) = started_paths [c]) as Hrev.
  { by destruct c. }
  rewrite Hrev in Hord2.
  specialize (IH _ _ Hinv1 Hwin Hord2).
  rewrite started_paths_cons, reverse_app, <-app_assoc, Hrev. exact IH.
Qed.


Lemma nodeKey_Some node k :
  nodeKey node = Some k →
  match k with
  | KString s => fieldName node = Some s ∧ index node = None
  | KNumber i => index node = Some i ∧ fieldName node = None
  end.
Proof.
  unfold nodeKey. destruct (fieldName node), (index node); intros [= <-]; done.
Qed.

Lemma nodeKey_fields n1 n2 :
  fieldName n1 = fieldName n2 → index n1 = index n2 → nodeKey n1 = nodeKey n2.
Proof. unfold nodeKey. by intros -> ->. Qed.

Lemma tree_inv_of_calls t0 calls :
  forallb in_window calls = true →
  in_order [] (started_paths calls) = true →
  tree_inv (reverse (started_paths calls))
    (perform_all (perform new_Builder (CallStartTiming t0)) calls).
Proof.
  intros Hwin Hord.
  pose proof (tree_inv_run calls [] _ (tree_inv_init t0) Hwin Hord) as H.
  by rewrite app_nil_r in H.
Qed.

Lemma covered_reverse ps q : covered (reverse ps) q ↔ covered ps q.
Proof. unfold covered. by setoid_rewrite elem_of_reverse. Qed.

Lemma covered_valid ps q :
  Forall (λ p, valid_path p = true) ps → covered ps q → valid_path q = true.
Proof.
  intros Hall (p & Hp & Hq). eapply ancestors_valid; [|done].
  by eapply (proj1 (Forall_forall _ _) Hall).
Qed.

(** C2, as the code has it.  Take any calls of [willResolveField], of the
    closures it returned and of [addError], made after [startTiming], in
    which the response keys are valid and no path is started after itself
    or after one of its descendants (a parent resolves before its
    children, each path once).  Let T be the started paths with all their
    prefixes.  Then the builder's tree is T:
    - every path of T has a node of its own, other than the root, that
      carries the last segment of the path ([fieldName] for a string,
      [index] for a number) and sits in the child list of the node of the
      path's parent (of the root for a path of one segment), ancestors
      that were never started included;
    - the root is registered under the empty path, and every node of the
      store is the root or the node of a path of T;
    - two paths of T never share a node;
    - the child list of the root and of the node of each path of T has no
      duplicates and holds exactly nodes of paths of T one segment
      longer. *)
Theorem tree_follows_paths (t0 : HrTime) (calls : list Call) :
  forallb in_window calls = true →
  in_order [] (started_paths calls) = true →
  let b := perform_all (perform new_Builder (CallStartTiming t0)) calls in
  let T := covered (started_paths calls) in
  (∀ q, T q →
     ∃ n node p pnode,
       nodes b !! str (Some q) = Some n ∧ n ≠ rootNode b
       ∧ heap b !! n = Some node
       ∧ match key q with
         | KString s => fieldName node = Some s ∧ index node = None
         | KNumber i => index node = Some i ∧ fieldName node = None
         end
       ∧ nodes b !! str (prev q) = Some p
       ∧ heap b !! p = Some pnode ∧ n ∈ child pnode)
  ∧ nodes b !! str None = Some (rootNode b)
  ∧ (∀ n, (n < length (heap b))%nat →
       n = rootNode b ∨ ∃ q, T q ∧ nodes b !! str (Some q) = Some n)
  ∧ (∀ q1 q2 n, T q1 → T q2 →
       nodes b !! str (Some q1) = Some n → nodes b !! str (Some q2) = Some n →
       q1 = q2)
  ∧ (∀ q p pnode,
       (∀ q', q = Some q' → T q') →
       nodes b !! str q = Some p → heap b !! p = Some pnode →
       NoDup (child pnode)
       ∧ ∀ c, c ∈ child pnode →
           ∃ qc, T qc ∧ prev qc = q ∧ nodes b !! str (Some qc) = Some c).
Proof.
  intros Hwin Hord b T.
  destruct (tree_inv_of_calls t0 calls Hwin Hord) as (Hws & Hp & Hvalid & Hdom).
  fold b in Hws, Hp, Hdom.
  assert (∀ q, T q → valid_path q = true) as HTvalid.
  { intros q Hq. eapply covered_valid; [exact Hvalid|]. by apply covered_reverse. }
  assert (∀ q, valid_path q = true → is_Some (nodes b !! str (Some q)) → T q) as HT.
  { intros q Hq Hreg. apply Hdom in Hreg as [Hempty|(q' & Hq' & Heq)].
    - by destruct (responsePathAsString_nonempty q Hq).
    - apply (proj1 (covered_reverse _ _)) in Hq'.
      assert (q' = q) as <-; [|exact Hq'].
      apply responsePathAsString_inj; [by apply HTvalid|done..]. }
  split_and!.
  - intros q Hq. pose proof (HTvalid q Hq) as Hqv.
    destruct (proj2 (Hdom (str (Some q)))) as [n Hn].
    { right. exists q. split; [by apply covered_reverse|done]. }
    destruct (lookup_lt_is_Some_2 (heap b) n (ws_alloc _ _ Hws _ _ Hn)) as [node Hnode].
    destruct (ws_parent _ _ Hws q n Hqv Hn) as (p & pnode & H1 & H2 & H3);
      [apply not_elem_of_nil|].
    exists n, node, p, pnode. split_and!; try done.
    + intros ->. pose proof (ws_inj _ _ Hws _ _ _ Hn (ws_root _ _ Hws)) as Heq.
      by destruct (responsePathAsString_nonempty q Hqv).
    + apply nodeKey_Some. by eapply (ws_key _ _ Hws).
  - exact (ws_root _ _ Hws).
  - intros n Hn. destruct (ws_reg _ _ Hws n Hn) as [k Hk].
    destruct (proj1 (Hdom k) (mk_is_Some _ _ Hk)) as [->|(q & Hq & <-)].
    + left. pose proof (ws_root _ _ Hws) as Hr. congruence.
    + right. exists q. split; [by apply covered_reverse|done].
  - intros q1 q2 n H1 H2 Hn1 Hn2.
    apply responsePathAsString_inj; [by apply HTvalid..|].
    by eapply (ws_inj _ _ Hws).
  - intros q p pnode Hq Hp' Hpnode.
    destruct (ws_child _ _ Hws _ _ _ Hp' Hpnode) as [Hnd Hc]. split; [done|].
    intros c Hin. destruct (Hc c Hin) as (cn & ck & H1 & H2 & H3 & H4).
    exists (Path q ck).
    assert (valid_path (Path q ck) = true) as Hqc.
    { destruct q as [q'|]; simpl; [|done]. rewrite H3. simpl. by apply HTvalid, Hq. }
    assert (nodes b !! str (Some (Path q ck)) = Some c) as Hreg.
    { by rewrite (responsePathAsString_child _ Hqc). }
    split; [|done]. apply HT; [done|by eexists].
Qed.

(** C1, as the code has it.  [willResolveField] never looks for an
    existing node.  Every call in the Started window whose parent path is
    registered allocates a node that did not exist before, registers the
    path to it (replacing an earlier registration: the last creation wins)
    and appends it to the child list of the parent, after the children
    already there.  One node per path is what results when no path is
    started after itself or one of its descendants: then no two path
    strings share a node, every node is registered, no child list has a
    duplicate, and two children of one node never carry the same segment. *)
Theorem every_start_creates_a_node :
  (∀ (b : Builder) (info : ResolveInfo) (now : HrTime) (p : ref),
     phase b = Started →
     nodes b !! str (prev (info_path info)) = Some p →
     str (prev (info_path info)) ≠ str (Some (info_path info)) →
     ∃ b',
       willResolveField info now b = Return (length (heap b)) b'
       ∧ nodes b' = <[str (Some (info_path info)) := length (heap b)]> (nodes b)
       ∧ length (heap b') = S (length (heap b))
       ∧ ∀ pn, heap b !! p = Some pn →
           ∃ pn', heap b' !! p = Some pn'
                  ∧ child pn' = child pn ++ [length (heap b)])
  ∧ (∀ (t0 : HrTime) (calls : list Call),
       forallb in_window calls = true →
       in_order [] (started_paths calls) = true →
       let b := perform_all (perform new_Builder (CallStartTiming t0)) calls in
       (∀ k1 k2 n, nodes b !! k1 = Some n → nodes b !! k2 = Some n → k1 = k2)
       ∧ (∀ n, (n < length (heap b))%nat → ∃ k, nodes b !! k = Some n)
       ∧ ∀ p pnode, heap b !! p = Some pnode →
           NoDup (child pnode)
           ∧ ∀ c1 c2 n1 n2,
               c1 ∈ child pnode → c2 ∈ child pnode →
               heap b !! c1 = Some n1 → heap b !! c2 = Some n2 →
               fieldName n1 = fieldName n2 → index n1 = index n2 → c1 = c2).
Proof.
  split.
  - intros b info now p Hp Hparent Hne.
    apply phase_Started in Hp as [Hs [t Ht]].
    unfold willResolveField. run_js. rewrite Ht, Hs, newNode_eq.
    rewrite (ensureParentNode_found _ _ p).
    2:{ simpl. by rewrite lookup_insert_ne. }
    eexists. split; [reflexivity|]. simpl.
    split; [done|]. split.
    { rewrite !length_alter, length_app. simpl. lia. }
    intros pn Hpn. pose proof (lookup_lt_Some _ _ _ Hpn) as Hlt.
    exists (push_child (length (heap b)) pn). split; [|reflexivity].
    rewrite !list_lookup_alter_ne by lia.
    rewrite list_lookup_alter_eq, lookup_app_l, Hpn by done. reflexivity.
  - intros t0 calls Hwin Hord b.
    destruct (tree_inv_of_calls t0 calls Hwin Hord) as (Hws & _).
    fold b in Hws. split_and!.
    + exact (ws_inj _ _ Hws).
    + exact (ws_reg _ _ Hws).
    + intros p pnode Hpnode.
      destruct (ws_reg _ _ Hws p (lookup_lt_Some _ _ _ Hpnode)) as [k Hk].
      destruct (ws_child _ _ Hws _ _ _ Hk Hpnode) as [Hnd Hc]. split; [done|].
      intros c1 c2 n1 n2 Hin1 Hin2 Hn1 Hn2 Hf Hi.
      destruct (Hc c1 Hin1) as (cn1 & ck1 & H1 & H2 & _ & H4).
      destruct (Hc c2 Hin2) as (cn2 & ck2 & H1' & H2' & _ & H4').
      assert (ck1 = ck2) as ->.
      { pose proof (nodeKey_fields n1 n2 Hf Hi). congruence. }
      congruence.
Qed.

(** *** Errors land on the registered node or on the root *)

Lemma newNode_keeps_root path : ∀ b r,
  valid_path path = true → nodes b !! "" = Some r →
  nodes (final_state (newNode path b)) !! "" = Some r
  ∧ rootNode (final_state (newNode path b)) = rootNode b.
Proof.
  induction path as [k|pp k IH] using ResponsePath_ind'; intros b r Hvalid Hroot.
  - pose proof (responsePathAsString_nonempty _ Hvalid) as Hne.
    rewrite newNode_eq, (ensureParentNode_found _ _ r).
    + simpl. by rewrite lookup_insert_ne.
    + simpl. by rewrite lookup_insert_ne.
  - pose proof (responsePathAsString_nonempty _ Hvalid) as Hne.
    assert (nodes (registered (Path (Some pp) k) b) !! "" = Some r) as Hroot2.
    { simpl. by rewrite lookup_insert_ne. }
    rewrite newNode_eq.
    destruct (nodes (registered (Path (Some pp) k) b) !! str (Some pp)) as [p|] eqn:Hp.
    + rewrite (ensureParentNode_found _ _ p) by exact Hp. simpl.
      by rewrite lookup_insert_ne.
    + rewrite ensureParentNode_missing by exact Hp.
      simpl in Hvalid. apply andb_true_iff in Hvalid as [_ Hpp].
      destruct (IH _ _ Hpp Hroot2) as [H1 H2].
      destruct (newNode pp (registered (Path (Some pp) k) b)); simpl in *; done.
Qed.

Lemma perform_keeps_root b c :
  Forall (λ p, valid_path p = true) (started_paths [c]) →
  nodes b !! "" = Some (rootNode b) →
  nodes (perform b c) !! "" = Some (rootNode (perform b c)).
Proof.
  intros Hvalid Hroot. destruct c as [now|info now|node now|path err|now]; simpl.
  - unfold startTiming. run_js. by destruct (startHrTime b), (stopped b).
  - unfold willResolveField. run_js.
    destruct (startHrTime b); [|done]. destruct (stopped b); [done|].
    apply Forall_cons in Hvalid as [Hvalid _].
    destruct (newNode_keeps_root _ _ _ Hvalid Hroot) as [H1 H2].
    destruct (newNode (info_path info) b); simpl in *; by rewrite H1, H2.
  - done.
  - unfold addError. run_js. by destruct (startHrTime b), (stopped b).
  - unfold stopTiming. run_js. by destruct (startHrTime b), (stopped b).
Qed.

Lemma perform_all_keeps_root calls : ∀ b,
  Forall (λ p, valid_path p = true) (started_paths calls) →
  nodes b !! "" = Some (rootNode b) →
  nodes (perform_all b calls) !! "" = Some (rootNode (perform_all b calls)).
Proof.
  induction calls as [|c calls IH]; intros b Hvalid Hroot; [done|].
  rewrite started_paths_cons in Hvalid. apply Forall_app in Hvalid as [Hc Hcalls].
  apply (IH (perform b c)); [done|]. by apply perform_keeps_root.
Qed.

(** C5.  On a builder reached by any calls (with valid response keys)
    that is in the Started window, [addError] returns, and the error is
    appended to the error list of exactly one node: the node registered
    under the dot-joined path when the path is given and such a node is
    registered; the root node when the path is absent, when it is empty,
    and when no node is registered under it.  Every other node, and the
    map, stay as they were. *)
Theorem addError_attaches_to_node_or_root (calls : list Call)
    (path : option (list Key)) (err : TraceError) :
  Forall (λ p, valid_path p = true) (started_paths calls) →
  let b := perform_all new_Builder calls in
  phase b = Started →
  ∃ b' target,
    addError path err b = Return tt b'
    ∧ target = errorNode b path
    ∧ (∀ p n, path = Some p → nodes b !! join "." p = Some n → target = n)
    ∧ (path = None ∨ path = Some []
       ∨ (∃ p, path = Some p ∧ nodes b !! join "." p = None) → target = rootNode b)
    ∧ (∀ node, heap b !! target = Some node →
         heap b' !! target = Some (push_error err node))
    ∧ (∀ other, other ≠ target → heap b' !! other = heap b !! other)
    ∧ nodes b' = nodes b ∧ rootNode b' = rootNode b ∧ phase b' = Started.
Proof.
  intros Hvalid b Hphase. apply addError_returns; [done|].
  apply perform_all_keeps_root; [done|]. reflexivity.
Qed.

End Creation.

(** *** The tree at concrete calls *)

Section TreeSamples.
Import TreeBuilder Lifecycle Shape.

Lemma addError_attaches_to_node_or_root_witness :
  ∃ b', addError (Some [KString "a"]) sample_error started_builder = Return tt b'
        ∧ (error <$> heap b' !! 1%nat) = Some [sample_error]
        ∧ (error <$> heap b' !! 0%nat) = Some [].
Proof.
  destruct (addError_attaches_to_node_or_root
              [CallStartTiming (10, 0); CallWillResolveField (info_of path_a) (10, 500)]
              (Some [KString "a"]) sample_error)
    as (b' & target & Hrun & Htarget & _ & _ & Hat & Hother & _).
  - repeat constructor.
  - vm_compute. reflexivity.
  - exists b'. split; [exact Hrun|].
    assert (target = 1%nat) as -> by (rewrite Htarget; vm_compute; reflexivity).
    split.
    + rewrite (Hat (mkNode (Some "a") None "String" "Query" 500 0 [] []));
        [reflexivity | vm_compute; reflexivity].
    + rewrite (Hother 0%nat); [vm_compute; reflexivity | lia].
Defined.

(** C1 as stated fails: [a] already has node 1; a second
    [willResolveField] for [a] returns the new node 2 instead, the root
    then has the two children 1 and 2, both named [a], and the map now
    sends [a] to node 2. *)
Lemma second_start_duplicates_node :
  let r := willResolveField (info_of path_a) (10, 700) started_builder in
  nodes started_builder !! "a" = Some 1%nat
  ∧ r = Return 2%nat (final_state r)
  ∧ nodes (final_state r) !! "a" = Some 2%nat
  ∧ (child <$> heap (final_state r) !! 0%nat) = Some [1%nat; 2%nat]
  ∧ (fieldName <$> heap (final_state r) !! 1%nat) = Some (Some "a")
  ∧ (fieldName <$> heap (final_state r) !! 2%nat) = Some (Some "a").
Proof. vm_compute. repeat split. Qed.

Lemma every_start_creates_a_node_witness :
  (∃ b', willResolveField (info_of path_a) (10, 700) started_builder
         = Return 2%nat b'
         ∧ nodes b' !! "a" = Some 2%nat
         ∧ (child <$> heap b' !! 0%nat) = Some [1%nat; 2%nat])
  ∧ (let b := perform_all (perform new_Builder (CallStartTiming (10, 0))) sample_calls in
     ∀ k1 k2 n, nodes b !! k1 = Some n → nodes b !! k2 = Some n → k1 = k2).
Proof.
  destruct every_start_creates_a_node as [Hdup Huniq]. split.
  - destruct (Hdup started_builder (info_of path_a) (10, 700) 0%nat)
      as (b' & Hrun & Hnodes & _ & Hchild).
    + vm_compute. reflexivity.
    + vm_compute. reflexivity.
    + vm_compute. discriminate.
    + exists b'. split; [exact Hrun|]. split.
      * rewrite Hnodes. apply lookup_insert_eq.
      * destruct (Hchild (push_child 1%nat new_Node)) as (pn' & Hpn' & Hc);
          [vm_compute; reflexivity|].
        rewrite Hpn'. simpl. rewrite Hc. reflexivity.
  - destruct (Huniq (10, 0) sample_calls) as [Hinj _].
    + vm_compute. reflexivity.
    + vm_compute. reflexivity.
    + exact Hinj.
Defined.

(** C2 as stated fails for an arrival order that starts a child before
    its parent: [a.b] and [a] are each started once, yet the root ends up
    with two children named [a] (node 2, created on the way to [a.b], and
    node 3), where the tree of the paths has one. *)
Lemma child_before_parent_duplicates_node :
  let b := perform_all (perform new_Builder (CallStartTiming (10, 0))) child_first_calls in
  NoDup (started_paths child_first_calls)
  ∧ (child <$> heap b !! 0%nat) = Some [2%nat; 3%nat]
  ∧ (fieldName <$> heap b !! 2%nat) = Some (Some "a")
  ∧ (fieldName <$> heap b !! 3%nat) = Some (Some "a")
  ∧ nodes b !! "a" = Some 3%nat
  ∧ (child <$> heap b !! 3%nat) = Some []
  ∧ (child <$> heap b !! 2%nat) = Some [1%nat].
Proof.
  split; [apply (bool_decide_unpack _); vm_compute; exact I|].
  vm_compute. repeat split.
Qed.

Lemma tree_follows_paths_witness :
  let b := perform_all (perform new_Builder (CallStartTiming (10, 0))) sample_calls in
  ∃ n node p pnode,
    nodes b !! str (Some path_a_b) = Some n ∧ n ≠ rootNode b
    ∧ heap b !! n = Some node
    ∧ (fieldName node = Some "b" ∧ index node = None)
    ∧ nodes b !! str (Some path_a) = Some p
    ∧ heap b !! p = Some pnode ∧ n ∈ child pnode.
Proof.
  destruct (tree_follows_paths (10, 0) sample_calls) as (Hnode & _).
  - vm_compute. reflexivity.
  - vm_compute. reflexivity.
  - apply (Hnode path_a_b). exists path_a_b_0.
    split; apply (bool_decide_unpack _); vm_compute; exact I.
Defined.

End TreeSamples.

(* ===================================================================== *)
(** ** Properties of the extension *)
(* ===================================================================== *)

Section ExtensionProperties.
Import Extension Lifecycle.
Context {Nodes Source Original Extensions DocumentNode : Type}.

Local Abbreviation Ext :=
  (@EngineReportingExtension Extensions DocumentNode).
Local Abbreviation Options :=
  (@EngineReportingOptions Extensions DocumentNode).
Local Abbreviation Start := (@RequestDidStart DocumentNode).
Local Abbreviation GError := (@GraphQLError Nodes Source Original Extensions).

Lemma requestDidStart_returns (e : Ext) (o : Start) ms hr :
  phase (treeBuilder e) = NotStarted →
  ∃ e', requestDidStart o ms hr e = Return tt e'
        ∧ trace e' = startedTrace (options e) o ms (trace e)
        ∧ treeBuilder e' = TreeBuilder.set_startHrTime (Some hr) (treeBuilder e)
        ∧ options e' = options e.
Proof.
  intros Hp. unfold phase in Hp.
  destruct (TreeBuilder.stopped (treeBuilder e)) eqn:Hs; [discriminate|].
  destruct (TreeBuilder.startHrTime (treeBuilder e)) eqn:Ht; [discriminate|].
  unfold requestDidStart. run_js.
  unfold onTrace, onTreeBuilder, TreeBuilder.startTiming. run_js.
  simpl. rewrite Ht, Hs. simpl. eexists. split; [reflexivity|]. simpl. done.
Qed.

Lemma http_recordClientInfo (opts : Options) (o : Start) t :
  http (recordClientInfo opts o t) = http t.
Proof. unfold recordClientInfo. by destruct (default _ _ _). Qed.

Lemma http_recordVariables (opts : Options) (o : Start) t :
  http (recordVariables opts o t) = http t.
Proof. unfold recordVariables. case_decide; [done|]. by destruct (variables o). Qed.

Lemma http_recordHeaders (opts : Options) (o : Start) t :
  http (recordHeaders opts o t) =
  if decide (privateHeaders opts = PrivateBool true) then http t
  else h ← http t;
       Some (mkHTTP (method h) (host h) (http_path h)
               (foldl (recordHeader opts) (requestHeaders h) (request_headers o))).
Proof.
  unfold recordHeaders. case_decide; [done|].
  by destruct (truthy _), (truthy _).
Qed.

Lemma details_recordClientInfo (opts : Options) (o : Start) t :
  details (recordClientInfo opts o t) = details t.
Proof. unfold recordClientInfo. by destruct (default _ _ _). Qed.

Lemma details_recordVariables (opts : Options) (o : Start) t :
  details (recordVariables opts o t) =
  if decide (privateVariables opts = PrivateBool true) then details t
  else match variables o with
       | Some vars => Some (map_fold (recordVariable opts) ∅ vars)
       | None => details t
       end.
Proof. unfold recordVariables. case_decide; [done|]. by destruct (variables o). Qed.

Lemma details_recordHeaders (opts : Options) (o : Start) t :
  details (recordHeaders opts o t) = details t.
Proof.
  unfold recordHeaders. case_decide; [done|]. by destruct (truthy _), (truthy _).
Qed.

(** *** Headers *)

Lemma recordHeader_lookup (opts : Options) acc k v key :
  own (recordHeader opts acc (k, v)) !! key =
  if decide (k = key)
  then (if isPrivateHeader opts key || isAlwaysOmitted key
           || bool_decide (key = "__proto__")
        then own acc !! key else Some [v])
  else own acc !! key.
Proof.
  unfold recordHeader, assign. destruct (decide (k = key)) as [Hk|Hk].
  - subst k. destruct (isPrivateHeader opts key); [done|].
    destruct (isAlwaysOmitted key); [done|]. cbn [orb].
    destruct (decide (key = "__proto__")) as [Hp|Hp].
    + by rewrite bool_decide_eq_true_2.
    + rewrite bool_decide_eq_false_2 by done. cbn [own].
      by rewrite lookup_insert_eq.
  - destruct (isPrivateHeader opts k); [done|].
    destruct (isAlwaysOmitted k); [done|].
    destruct (decide (k = "__proto__")); [done|]. cbn [own].
    by rewrite lookup_insert_ne.
Qed.

Lemma foldl_recordHeader_omitted (opts : Options) hs acc key :
  isPrivateHeader opts key || isAlwaysOmitted key
    || bool_decide (key = "__proto__") = true →
  own (foldl (recordHeader opts) acc hs) !! key = own acc !! key.
Proof.
  intros Hom. revert acc. induction hs as [|[k v] hs IH]; intros acc; [done|].
  cbn [foldl]. rewrite IH, recordHeader_lookup.
  destruct (decide (k = key)); [by rewrite Hom|done].
Qed.

Lemma foldl_recordHeader_absent (opts : Options) hs acc key :
  key ∉ hs.*1 → own (foldl (recordHeader opts) acc hs) !! key = own acc !! key.
Proof.
  revert acc. induction hs as [|[k v] hs IH]; intros acc Hk; [done|].
  cbn [foldl]. rewrite IH, recordHeader_lookup.
  - destruct (decide (k = key)); [|done]. subst. exfalso. apply Hk. simpl. left.
  - intros ?. apply Hk. simpl. by right.
Qed.

Lemma foldl_recordHeader_recorded (opts : Options) hs acc key value :
  isPrivateHeader opts key || isAlwaysOmitted key
    || bool_decide (key = "__proto__") = false →
  NoDup hs.*1 → (key, value) ∈ hs →
  own (foldl (recordHeader opts) acc hs) !! key = Some [value].
Proof.
  intros Hom. revert acc. induction hs as [|[k v] hs IH]; intros acc Hnd Hin.
  { by apply elem_of_nil in Hin. }
  cbn [foldl fmap list_fmap] in *. apply NoDup_cons in Hnd as [Hk Hnd].
  apply elem_of_cons in Hin as [Heq|Hin].
  - injection Heq as <- <-.
    rewrite foldl_recordHeader_absent by done.
    rewrite recordHeader_lookup, Hom. by rewrite decide_True.
  - by apply IH.
Qed.

Lemma isAlwaysOmitted_true key :
  isAlwaysOmitted key = true ↔ key ∈ ["authorization"; "cookie"; "set-cookie"].
Proof.
  unfold isAlwaysOmitted. rewrite !orb_true_iff, !bool_decide_eq_true.
  rewrite !elem_of_cons, elem_of_nil. tauto.
Qed.

Lemma isPrivateHeader_true (opts : Options) key :
  isPrivateHeader opts key = true ↔
  ∃ names name, privateHeaders opts = PrivateArray names ∧ name ∈ names
                ∧ toLowerCase name = toLowerCase key.
Proof.
  unfold isPrivateHeader. split.
  - destruct (privateHeaders opts) as [|?|names]; try discriminate.
    intros (name & Hin & Heq)%existsb_exists.
    exists names, name. apply list_elem_of_In in Hin.
    by apply bool_decide_eq_true in Heq.
  - intros (names & name & -> & Hin & Heq).
    apply existsb_exists. exists name. split; [by apply list_elem_of_In|].
    by apply bool_decide_eq_true.
Qed.

Lemma started_headers (e : Ext) (o : Start) ms :
  http (startedTrace (options e) o ms (trace e)) =
  Some (mkHTTP (default UNKNOWN (Method_of_string (request_method o))) None None
          (if decide (privateHeaders (options e) = PrivateBool true) then empty_Dict
           else foldl (recordHeader (options e)) empty_Dict (request_headers o))).
Proof.
  unfold startedTrace.
  rewrite http_recordClientInfo, http_recordVariables, http_recordHeaders.
  by case_decide.
Qed.

(** X14.  The header snapshot that [requestDidStart] builds, as own
    properties of [requestHeaders]: [authorization], [cookie] and
    [set-cookie] are left out under every configuration; under
    [privateHeaders: true] nothing is recorded; under an array, a header
    whose name equals an element of the array up to case is left out; a
    name that is no header of the request is never recorded; and every
    other header of the request, unless its name is [__proto__], is
    recorded with its value as a one-element list. *)
Theorem headers_are_redacted (e : Ext) (o : Start) (nowMillis : Z)
    (nowHr : TreeBuilder.HrTime) :
  phase (treeBuilder e) = NotStarted →
  ∃ e' h,
    requestDidStart o nowMillis nowHr e = Return tt e'
    ∧ http (trace e') = Some h
    ∧ (∀ key, key ∈ ["authorization"; "cookie"; "set-cookie"] →
         own (requestHeaders h) !! key = None)
    ∧ (privateHeaders (options e) = PrivateBool true → requestHeaders h = empty_Dict)
    ∧ (∀ names name key,
         privateHeaders (options e) = PrivateArray names → name ∈ names →
         toLowerCase name = toLowerCase key → own (requestHeaders h) !! key = None)
    ∧ (∀ key, key ∉ (request_headers o).*1 → own (requestHeaders h) !! key = None)
    ∧ (∀ key value,
         NoDup (request_headers o).*1 → (key, value) ∈ request_headers o →
         key ∉ ["authorization"; "cookie"; "set-cookie"] →
         key ≠ "__proto__" →
         privateHeaders (options e) ≠ PrivateBool true →
         (∀ names name, privateHeaders (options e) = PrivateArray names →
            name ∈ names → toLowerCase name ≠ toLowerCase key) →
         own (requestHeaders h) !! key = Some [value]).
Proof.
  intros Hp. destruct (requestDidStart_returns e o nowMillis nowHr Hp)
    as (e' & Hrun & Htrace & _ & _).
  eexists e', _. split; [exact Hrun|].
  split; [rewrite Htrace; apply started_headers|]. cbn [requestHeaders].
  split_and!.
  - intros key Hkey. case_decide; [done|].
    rewrite foldl_recordHeader_omitted; [done|].
    apply orb_true_iff. left. apply orb_true_iff. right.
    by apply isAlwaysOmitted_true.
  - intros Hall. by case_decide.
  - intros names name key Hnames Hin Hlow. case_decide; [done|].
    rewrite foldl_recordHeader_omitted; [done|].
    apply orb_true_iff. left. apply orb_true_iff. left.
    apply isPrivateHeader_true. eauto.
  - intros key Hkey. case_decide; [done|].
    by rewrite foldl_recordHeader_absent.
  - intros key value Hnd Hin Hkey Hproto Hall Hnames. case_decide; [done|].
    apply foldl_recordHeader_recorded; [|done..].
    apply orb_false_iff. split; [apply orb_false_iff; split|].
    + apply not_true_is_false. intros (names & name & ? & ? & ?)%isPrivateHeader_true.
      by eapply Hnames.
    + apply not_true_is_false. by intros ?%isAlwaysOmitted_true.
    + by apply bool_decide_eq_false.
Qed.

(** *** Variables *)

Lemma recordVariable_fold_lookup (opts : Options) (vars : gmap string Value) name :
  map_fold (recordVariable opts) ∅ vars !! name =
  if decide (name = "__proto__") then None
  else variableJson opts name <$> vars !! name.
Proof.
  apply (map_fold_weak_ind
           (λ r m, r !! name = if decide (name = "__proto__") then None
                               else variableJson opts name <$> m !! name)).
  - rewrite !lookup_empty. by case_decide.
  - intros i x m r Hi IH. unfold recordVariable, assign_primitive.
    destruct (decide (i = name)) as [->|Hne].
    + destruct (decide (name = "__proto__")); [done|].
      by rewrite !lookup_insert_eq.
    + rewrite (lookup_insert_ne m) by done. rewrite <-IH.
      destruct (decide (i = "__proto__")); [done|]. by rewrite lookup_insert_ne.
Qed.

(** The sentinel is itself JSON text: the quoted message. *)
Lemma unableToConvert_quoted :
  unableToConvert
  = String quote ("[Unable to convert value to JSON]" +:+ String quote "").
Proof. reflexivity. Qed.

Lemma isPrivateVariable_true (opts : Options) name :
  isPrivateVariable opts name = true ↔
  ∃ names, privateVariables opts = PrivateArray names ∧ name ∈ names.
Proof.
  unfold isPrivateVariable. split.
  - destruct (privateVariables opts) as [|?|names]; try discriminate.
    intros ?%bool_decide_eq_true. eauto.
  - intros (names & -> & ?). by apply bool_decide_eq_true.
Qed.

(** C7, as the code has it.  [requestDidStart] never throws on account of
    the variables.  Under [privateVariables: true], and when the request
    has no variables, it builds no variable snapshot at all: no name is
    recorded.  Otherwise, leaving the name [__proto__] aside, the snapshot
    has exactly the names of the variables, and for each name: the empty
    string when the array lists the name; else the JSON text of the value,
    so that the empty string is recorded as two quote characters
    ([undefined] where [JSON.stringify] gives no text); else, when
    [JSON.stringify] throws, the JSON text of
    "[Unable to convert value to JSON]". *)
Theorem variables_snapshot (e : Ext) (o : Start) (nowMillis : Z)
    (nowHr : TreeBuilder.HrTime) :
  phase (treeBuilder e) = NotStarted →
  ∃ e',
    requestDidStart o nowMillis nowHr e = Return tt e'
    ∧ (privateVariables (options e) = PrivateBool true ∨ variables o = None →
         details (trace e') = details (trace e))
    ∧ (∀ vars, privateVariables (options e) ≠ PrivateBool true →
         variables o = Some vars →
         ∃ snapshot,
           details (trace e') = Some snapshot
           ∧ (∀ name, name ≠ "__proto__" →
                (name ∈ dom snapshot ↔ name ∈ dom vars))
           ∧ (∀ names name, privateVariables (options e) = PrivateArray names →
                name ∈ names → name ∈ dom vars → name ≠ "__proto__" →
                snapshot !! name = Some (Some ""))
           ∧ (∀ name value, vars !! name = Some value → name ≠ "__proto__" →
                (∀ names, privateVariables (options e) = PrivateArray names →
                   name ∉ names) →
                snapshot !! name =
                Some (match stringify value with
                      | Text text => Some text
                      | Undefined => None
                      | Thrown =>
                          Some (String quote ("[Unable to convert value to JSON]"
                                              +:+ String quote ""))
                      end))
           ∧ (∀ name, vars !! name = Some (JString "") → name ≠ "__proto__" →
                (∀ names, privateVariables (options e) = PrivateArray names →
                   name ∉ names) →
                snapshot !! name = Some (Some (String quote (String quote ""))))).
Proof.
  intros Hp. destruct (requestDidStart_returns e o nowMillis nowHr Hp)
    as (e' & Hrun & Htrace & _ & _).
  assert (details (trace e') =
          if decide (privateVariables (options e) = PrivateBool true)
          then details (trace e)
          else match variables o with
               | Some vars => Some (map_fold (recordVariable (options e)) ∅ vars)
               | None => details (trace e)
               end) as Hd.
  { rewrite Htrace. unfold startedTrace.
    rewrite details_recordClientInfo, details_recordVariables, details_recordHeaders.
    done. }
  exists e'. split; [exact Hrun|]. split.
  - intros [Hall|Hnone]; rewrite Hd; case_decide; try done. by rewrite Hnone.
  - intros vars Hnot Hvars. rewrite Hd, Hvars. case_decide; [done|].
    eexists. split; [reflexivity|].
    assert (∀ name value, vars !! name = Some value → name ≠ "__proto__" →
              (∀ names, privateVariables (options e) = PrivateArray names →
                 name ∉ names) →
              map_fold (recordVariable (options e)) ∅ vars !! name
              = Some (match stringify value with
                      | Text text => Some text
                      | Undefined => None
                      | Thrown => Some unableToConvert
                      end)) as Hplain.
    { intros name value Hname Hproto Hnotin.
      rewrite recordVariable_fold_lookup, Hname, decide_False by done.
      simpl. unfold variableJson.
      destruct (isPrivateVariable (options e) name) eqn:Hpriv; [|done].
      apply isPrivateVariable_true in Hpriv as (names & Hnames & Hin).
      by destruct (Hnotin names Hnames). }
    split; [|split; [|split]].
    + intros name Hproto. rewrite !elem_of_dom, recordVariable_fold_lookup.
      rewrite decide_False by done. by rewrite fmap_is_Some.
    + intros names name Hnames Hin [value Hname]%elem_of_dom Hproto.
      rewrite recordVariable_fold_lookup, Hname, decide_False by done.
      simpl. unfold variableJson.
      assert (isPrivateVariable (options e) name = true) as ->; [|done].
      apply isPrivateVariable_true. eauto.
    + exact Hplain.
    + intros name Hname Hproto Hnotin. by rewrite (Hplain name _ Hname Hproto Hnotin).
Qed.

(** *** Flags *)

Lemma persisted_flags_started (opts : Options) (o : Start) ms t :
  persistedQueryHit (startedTrace opts o ms t) =
    (if decide (privateHeaders opts = PrivateBool true) then persistedQueryHit t
     else truthy (persistedQueryHit_signal (metrics (requestContext o)))
          || persistedQueryHit t)
  ∧ persistedQueryRegister (startedTrace opts o ms t) =
    (if decide (privateHeaders opts = PrivateBool true) then persistedQueryRegister t
     else truthy (persistedQueryRegister_signal (metrics (requestContext o)))
          || persistedQueryRegister t).
Proof.
  unfold startedTrace, recordClientInfo, recordVariables, recordHeaders.
  destruct (truthy (persistedQueryHit_signal _));
    destruct (truthy (persistedQueryRegister_signal _));
    repeat first [case_decide | case_match]; done.
Qed.

Lemma requestDidEnd_returns (e : Ext) (o : Start) (rc : RequestContext) hr ms :
  phase (treeBuilder e) = Started →
  ∃ args e', requestDidEnd o rc hr ms e = Return args e'
    ∧ at_trace args = trace e'
    ∧ fullQueryCacheHit (trace e') = truthy (responseCacheHit (metrics rc))
    ∧ forbiddenOperation (trace e') = truthy (forbiddenOperation_signal (metrics rc))
    ∧ registeredOperation (trace e') = truthy (registeredOperation_signal (metrics rc))
    ∧ persistedQueryHit (trace e') = persistedQueryHit (trace e)
    ∧ persistedQueryRegister (trace e') = persistedQueryRegister (trace e).
Proof.
  intros Hp. unfold phase in Hp.
  destruct (TreeBuilder.stopped (treeBuilder e)) eqn:Hs; [discriminate|].
  destruct (TreeBuilder.startHrTime (treeBuilder e)) eqn:Ht; [|discriminate].
  unfold requestDidEnd. run_js.
  unfold onTrace, onTreeBuilder, TreeBuilder.stopTiming. run_js.
  rewrite Ht, Hs. simpl. eexists _, _. split; [reflexivity|]. simpl. done.
Qed.

(** The flags of the emitted trace, for a request that starts on a fresh
    extension and ends with the same metrics: the first three follow the
    metrics; the two persisted-query flags follow them unless
    [privateHeaders] is [true]. *)
Lemma flags_of_emitted_trace (opts : Options) (o : Start) ms hr ms' hr' :
  ∃ e1 e2 args,
    requestDidStart o ms hr (new_Extension opts) = Return tt e1
    ∧ requestDidEnd o (requestContext o) hr' ms' e1 = Return args e2
    ∧ fullQueryCacheHit (at_trace args)
      = truthy (responseCacheHit (metrics (requestContext o)))
    ∧ forbiddenOperation (at_trace args)
      = truthy (forbiddenOperation_signal (metrics (requestContext o)))
    ∧ registeredOperation (at_trace args)
      = truthy (registeredOperation_signal (metrics (requestContext o)))
    ∧ persistedQueryHit (at_trace args)
      = (if decide (privateHeaders opts = PrivateBool true) then false
         else truthy (persistedQueryHit_signal (metrics (requestContext o))))
    ∧ persistedQueryRegister (at_trace args)
      = (if decide (privateHeaders opts = PrivateBool true) then false
         else truthy (persistedQueryRegister_signal (metrics (requestContext o)))).
Proof.
  destruct (requestDidStart_returns (new_Extension opts) o ms hr eq_refl)
    as (e1 & Hrun1 & Htrace & Hb & Hopts).
  destruct (requestDidEnd_returns e1 o (requestContext o) hr' ms')
    as (args & e2 & Hrun2 & Hargs & H1 & H2 & H3 & H4 & H5).
  { rewrite Hb. reflexivity. }
  exists e1, e2, args. rewrite Hargs, H1, H2, H3, H4, H5, Htrace.
  destruct (persisted_flags_started (options (new_Extension opts)) o ms
              (trace (new_Extension opts))) as [-> ->].
  simpl. rewrite !orb_false_r. done.
Qed.

(** *** Errors *)

Variable getLocations :
  option Nodes → option Source → option (list Z) → option (list TreeBuilder.Location).
Variable GraphQLError_json : string → option (list TreeBuilder.Location) →
  option (list Key) → option Extensions → string.

Lemma didEncounterErrors_one (e : Ext) (err : GError) :
  didEncounterErrors getLocations GraphQLError_json [err] e =
  match rewriteError getLocations (options e) err with
  | None => Return tt e
  | Some errorForReporting => addError getLocations GraphQLError_json errorForReporting e
  end.
Proof.
  cbn [didEncounterErrors]. run_js.
  destruct (rewriteError _ _ _) as [r|]; [|done].
  by destruct (addError _ _ r e) as [[] ?|].
Qed.

Lemma traceError_masked :
  traceError getLocations GraphQLError_json
    (MaskedErrorObject "<masked>"
       : @GraphQLErrorOrMaskedErrorObject Nodes Source Original Extensions)
  = maskedTraceError.
Proof. reflexivity. Qed.

Lemma masked_errors_step (errors : list GError) (e : Ext) :
  maskErrorDetails (options e) = true →
  phase (treeBuilder e) = Started →
  didEncounterErrors getLocations GraphQLError_json errors e =
  Return tt (set_treeBuilder
    (TreeBuilder.set_heap
       (alter (push_errors (replicate (length errors) maskedTraceError))
              (TreeBuilder.rootNode (treeBuilder e))
              (TreeBuilder.heap (treeBuilder e)))
       (treeBuilder e)) e).
Proof.
  revert e. induction errors as [|err errors IH]; intros e Hmask Hp.
  - simpl. unfold Js.ret. f_equal. destruct e as [t b ? ? ? ?]. simpl.
    unfold set_treeBuilder. simpl. f_equal. destruct b.
    unfold TreeBuilder.set_heap. simpl.
    f_equal. symmetry. by apply list_alter_id.
  - cbn [didEncounterErrors]. run_js. unfold rewriteError. rewrite Hmask.
    unfold addError, onTreeBuilder, TreeBuilder.addError. run_js.
    unfold phase in Hp.
    destruct (TreeBuilder.stopped (treeBuilder e)) eqn:Hs; [discriminate|].
    destruct (TreeBuilder.startHrTime (treeBuilder e)) eqn:Ht; [|discriminate].
    cbn [eo_path]. rewrite IH.
    + f_equal. destruct e as [t b ? ? ? ?]. unfold set_treeBuilder. simpl. f_equal.
      unfold TreeBuilder.set_heap. simpl. f_equal.
      rewrite list_alter_alter_eq. apply list_alter_ext; [|done].
      intros n _. reflexivity.
    + done.
    + unfold phase. simpl. by rewrite Hs, Ht.
Qed.

Lemma error_push_errors errs n :
  TreeBuilder.error (push_errors errs n) = TreeBuilder.error n ++ errs.
Proof.
  revert n. induction errs as [|err errs IH]; intros n.
  - simpl. by rewrite app_nil_r.
  - unfold push_errors in *. cbn [foldl]. rewrite IH. simpl. by rewrite <-app_assoc.
Qed.

(** C10.  Under [maskErrorDetails], whatever [rewriteError] function is
    configured plays no part: for every error the reportable form is the
    bare object with the message "<masked>", and [didEncounterErrors]
    appends, for each error, the record with that message, no location and
    the JSON of that object to the error list of the root node.  No other
    node receives anything, wherever the errors occurred. *)
Theorem masked_errors_reported_on_root (e : Ext) (errors : list GError) :
  maskErrorDetails (options e) = true →
  phase (treeBuilder e) = Started →
  (∀ rewrite (err : GError),
     rewriteError getLocations (with_rewriteError rewrite (options e)) err
     = Some (MaskedErrorObject "<masked>"))
  ∧ ∃ b',
      didEncounterErrors getLocations GraphQLError_json errors e
      = Return tt (set_treeBuilder b' e)
      ∧ TreeBuilder.location maskedTraceError = []
      ∧ TreeBuilder.message maskedTraceError = "<masked>"
      ∧ (∀ root, TreeBuilder.heap (treeBuilder e)
                   !! TreeBuilder.rootNode (treeBuilder e) = Some root →
           ∃ root', TreeBuilder.heap b' !! TreeBuilder.rootNode (treeBuilder e)
                    = Some root'
             ∧ TreeBuilder.error root'
               = TreeBuilder.error root
                 ++ replicate (length errors) maskedTraceError)
      ∧ (∀ other, other ≠ TreeBuilder.rootNode (treeBuilder e) →
           TreeBuilder.heap b' !! other = TreeBuilder.heap (treeBuilder e) !! other)
      ∧ TreeBuilder.nodes b' = TreeBuilder.nodes (treeBuilder e).
Proof.
  intros Hmask Hp. split.
  { intros rewrite err. unfold rewriteError, with_rewriteError. simpl.
    by rewrite Hmask. }
  exists (TreeBuilder.set_heap
            (alter (push_errors (replicate (length errors) maskedTraceError))
                   (TreeBuilder.rootNode (treeBuilder e))
                   (TreeBuilder.heap (treeBuilder e)))
            (treeBuilder e)).
  split; [|split; [|split; [|split; [|split]]]].
  - by apply masked_errors_step.
  - reflexivity.
  - reflexivity.
  - intros root Hroot. eexists. split.
    + simpl. rewrite list_lookup_alter_eq, Hroot. reflexivity.
    + apply error_push_errors.
  - intros other Hne. simpl. by apply list_lookup_alter_ne.
  - reflexivity.
Qed.

End ExtensionProperties.

(** *** The properties at concrete requests *)

Section ExtensionSamples.
Import Extension Lifecycle Samples.

Lemma headers_are_redacted_witness :
  ∃ e' h,
    requestDidStart (request_of sample_headers None all_true) 1000 (10, 0)
      (new_Extension (options_of (PrivateArray ["X-Secret"]) PrivateUnset false None))
    = Return tt e'
    ∧ http (trace e') = Some h
    ∧ own (requestHeaders h) !! "authorization" = None
    ∧ own (requestHeaders h) !! "x-secret" = None
    ∧ own (requestHeaders h) !! "host" = None
    ∧ own (requestHeaders h) !! "accept" = Some ["json"].
Proof.
  destruct (headers_are_redacted
              (new_Extension (options_of (PrivateArray ["X-Secret"]) PrivateUnset false None))
              (request_of sample_headers None all_true) 1000 (10, 0))
    as (e' & h & Hrun & Hh & Homit & _ & Hlist & Habsent & Hrec).
  { reflexivity. }
  exists e', h. split; [exact Hrun|]. split; [exact Hh|]. split; [|split; [|split]].
  - apply Homit. apply list_elem_of_here.
  - apply (Hlist ["X-Secret"] "X-Secret"); [reflexivity|apply list_elem_of_here|].
    vm_compute. reflexivity.
  - apply Habsent. apply (bool_decide_unpack _). vm_compute. exact I.
  - apply Hrec.
    + apply (bool_decide_unpack _). vm_compute. exact I.
    + apply (bool_decide_unpack _). vm_compute. exact I.
    + apply (bool_decide_unpack _). vm_compute. exact I.
    + discriminate.
    + discriminate.
    + intros names name [= <-] Hin. apply list_elem_of_singleton in Hin as ->.
      vm_compute. discriminate.
Defined.

(** C6 at a request with the headers [__proto__: x] and [accept: json]
    and no [privateHeaders] option.  Neither header is private or one of
    the three always omitted, and [accept] is recorded; but the assignment
    [requestHeaders["__proto__"] = ...] on a plain object goes to the
    inherited setter: it makes the new [Values] object the prototype of
    [requestHeaders] and records no header of that name. *)
Theorem proto_header_is_not_recorded :
  let opts := options_of PrivateUnset PrivateUnset false None in
  let o := request_of [("__proto__", "x"); ("accept", "json")] None all_true in
  ∃ e' h,
    requestDidStart o 1000 (10, 0) (new_Extension opts) = Return tt e'
    ∧ http (trace e') = Some h
    ∧ isPrivateHeader opts "__proto__" = false
    ∧ isAlwaysOmitted "__proto__" = false
    ∧ own (requestHeaders h) !! "accept" = Some ["json"]
    ∧ own (requestHeaders h) !! "__proto__" = None
    ∧ proto (requestHeaders h) = Some ["x"].
Proof.
  intros opts o.
  destruct (requestDidStart_returns (new_Extension opts) o 1000 (10, 0) eq_refl)
    as (e' & Hrun & Htrace & _ & _).
  eexists e', _. split; [exact Hrun|].
  split; [rewrite Htrace; apply started_headers|].
  vm_compute. done.
Qed.

(** C7 as stated fails under the blanket policy: with
    [privateVariables: true] and the variables [password] and [user], no
    snapshot is built, so [password] is not recorded with the empty
    string. *)
Lemma redact_all_records_no_variable_name :
  let e' := final_state
    (requestDidStart (request_of [] (Some sample_variables) all_true) 1000 (10, 0)
       (new_Extension (options_of PrivateUnset (PrivateBool true) false None))) in
  sample_variables !! "password" = Some (JString "x")
  ∧ details (trace e') = None
  ∧ ¬ ∃ snapshot, details (trace e') = Some snapshot
                  ∧ snapshot !! "password" = Some (Some "").
Proof.
  split; [vm_compute; reflexivity|]. split; [vm_compute; reflexivity|].
  intros (snapshot & Hd & _). vm_compute in Hd. discriminate.
Qed.

Lemma variables_snapshot_witness :
  ∃ e' snapshot,
    requestDidStart (request_of [] (Some sample_variables) all_true) 1000 (10, 0)
      (new_Extension (options_of PrivateUnset (PrivateArray ["password"]) false None))
    = Return tt e'
    ∧ details (trace e') = Some snapshot
    ∧ snapshot !! "password" = Some (Some "")
    ∧ snapshot !! "user" = Some (Some (String quote ("bob" +:+ String quote ""))).
Proof.
  destruct (variables_snapshot
              (new_Extension (options_of PrivateUnset (PrivateArray ["password"]) false None))
              (request_of [] (Some sample_variables) all_true) 1000 (10, 0))
    as (e' & Hrun & _ & Hsnap).
  { reflexivity. }
  destruct (Hsnap sample_variables) as (snapshot & Hd & _ & Hlisted & Hplain & _).
  { discriminate. }
  { reflexivity. }
  exists e', snapshot. split; [exact Hrun|]. split; [exact Hd|]. split.
  - apply (Hlisted ["password"]); [reflexivity|apply list_elem_of_here| |discriminate].
    apply (bool_decide_unpack _). vm_compute. exact I.
  - rewrite (Hplain "user" (JString "bob"));
      [reflexivity|vm_compute; reflexivity|discriminate|].
    intros names [= <-]. apply (bool_decide_unpack _). vm_compute. exact I.
Defined.

(** C9 at [privateHeaders: true] with every signal of the metrics set:
    the request starts and ends normally, the three flags written by the
    end handler are set, and the two persisted-query flags are not, since
    the statements that set them sit inside the block guarded by
    [privateHeaders !== true]. *)
Theorem persisted_query_flags_lost_when_headers_private :
  let opts := options_of (PrivateBool true) PrivateUnset false None in
  let o := request_of sample_headers None all_true in
  ∃ e1 e2 args,
    requestDidStart o 1000 (10, 0) (new_Extension opts) = Return tt e1
    ∧ requestDidEnd o (requestContext o) (11, 0) 2000 e1 = Return args e2
    ∧ persistedQueryHit_signal (metrics (requestContext o)) = Some true
    ∧ persistedQueryRegister_signal (metrics (requestContext o)) = Some true
    ∧ fullQueryCacheHit (at_trace args) = true
    ∧ forbiddenOperation (at_trace args) = true
    ∧ registeredOperation (at_trace args) = true
    ∧ persistedQueryHit (at_trace args) = false
    ∧ persistedQueryRegister (at_trace args) = false.
Proof.
  intros opts o.
  destruct (flags_of_emitted_trace opts o 1000 (10, 0) 2000 (11, 0))
    as (e1 & e2 & args & H1 & H2 & H3 & H4 & H5 & H6 & H7).
  exists e1, e2, args. rewrite H3, H4, H5, H6, H7. done.
Qed.

Lemma masked_errors_reported_on_root_witness :
  let opts := options_of PrivateUnset PrivateUnset true (Some rewrite_drop) in
  ∃ e',
    didEncounterErrors getLocations GraphQLError_json
      [sample_graphql_error] (started_extension opts) = Return tt e'
    ∧ (TreeBuilder.error <$> TreeBuilder.heap (treeBuilder e') !! 0%nat)
      = Some [maskedTraceError]
    ∧ (TreeBuilder.error <$> TreeBuilder.heap (treeBuilder e') !! 2%nat) = Some [].
Proof.
  intros opts.
  destruct (masked_errors_reported_on_root getLocations GraphQLError_json
              (started_extension opts) [sample_graphql_error])
    as (_ & b' & Hrun & _ & _ & Hroot & Hother & _).
  { reflexivity. }
  { vm_compute. reflexivity. }
  exists (set_treeBuilder b' (started_extension opts)).
  split; [exact Hrun|]. split.
  - destruct (Hroot (TreeBuilder.push_child 1%nat TreeBuilder.new_Node))
      as (root' & Hr & He).
    { vm_compute. reflexivity. }
    change (TreeBuilder.rootNode (treeBuilder (started_extension opts))) with 0%nat in Hr.
    cbn [treeBuilder set_treeBuilder]. rewrite Hr. simpl. rewrite He. reflexivity.
  - cbn [treeBuilder set_treeBuilder]. rewrite (Hother 2%nat).
    + vm_compute. reflexivity.
    + vm_compute. discriminate.
Defined.

End ExtensionSamples.

(* ===================================================================== *)
(** ** Further properties of the tree builder *)
(* ===================================================================== *)

Section Growing.
Import TreeBuilder Lifecycle Shape Growth.

Lemma extends_refl n : extends n n.
Proof. by repeat split. Qed.

Lemma extends_trans n1 n2 n3 : extends n1 n2 → extends n2 n3 → extends n1 n3.
Proof.
  intros (?&?&?&?&?&?&?) (?&?&?&?&?&?&?).
  repeat split; try congruence; by etrans.
Qed.

Lemma grows_refl b : grows b b.
Proof. repeat split. intros i n Hn. exists n. auto using extends_refl. Qed.

Lemma grows_trans b1 b2 b3 : grows b1 b2 → grows b2 b3 → grows b1 b3.
Proof.
  intros (?&?&?&H12) (?&?&?&H23). repeat split; try congruence.
  intros i n Hn. destruct (H12 i n Hn) as (n2 & Hn2 & He2 & Ht2 & Hr2).
  destruct (H23 i n2 Hn2) as (n3 & Hn3 & He3 & Ht3 & Hr3).
  exists n3. split; [done|]. split; [by eapply extends_trans|]. split; congruence.
Qed.

Lemma grows_registered path b : grows b (registered path b).
Proof.
  repeat split. intros i n Hn. exists n. simpl.
  split; [by apply lookup_app_l_Some|]. auto using extends_refl.
Qed.

Lemma grows_alloc b x : grows b (set_heap (heap b ++ [x]) b).
Proof.
  repeat split. intros i n Hn. exists n. simpl.
  split; [by apply lookup_app_l_Some|]. auto using extends_refl.
Qed.

Lemma grows_attached parent node b : grows b (attached parent node b).
Proof.
  repeat split. intros i n Hn. simpl.
  eexists. split; [by apply alter_lookup_of|].
  case_decide; [|auto using extends_refl].
  split; [|done]. repeat split; try done. simpl. by apply prefix_app_r.
Qed.

Lemma grows_length b b' : grows b b' → (length (heap b) ≤ length (heap b'))%nat.
Proof.
  intros (_&_&_&H). destruct (heap b) as [|x l] eqn:Hl using rev_ind; [simpl; lia|].
  destruct (H (length l) x) as (n' & Hn' & _).
  { by rewrite list_lookup_middle. }
  apply lookup_lt_Some in Hn'. rewrite length_app. simpl. lia.
Qed.

Lemma ensureParentNode_orphaned k b :
  nodes b !! str None = None →
  ensureParentNode (Path None k) b
  = Throw TypeError (set_heap (heap b ++ [new_Node]) b).
Proof.
  intros Hp. unfold ensureParentNode. run_js.
  change (prev (Path None k)) with (@None ResponsePath). by rewrite Hp.
Qed.

(** Whatever the builder, [newNode] only adds: it returns the index of the
    node it allocated, and leaves the nodes that were there extended. *)
Lemma newNode_grows path : ∀ b,
  grows (registered path b) (final_state (newNode path b))
  ∧ ∀ r b', newNode path b = Return r b' → r = length (heap b).
Proof.
  induction path as [k|pp k IH] using ResponsePath_ind'; intros b;
    rewrite newNode_eq.
  - destruct (nodes (registered (Path None k) b) !! str None) as [p|] eqn:Hp.
    + rewrite (ensureParentNode_found _ _ p) by exact Hp.
      split; [apply grows_attached|]. by intros r b' [= <- _].
    + rewrite ensureParentNode_orphaned by exact Hp.
      split; [apply grows_alloc|]. done.
  - destruct (nodes (registered (Path (Some pp) k) b) !! str (Some pp)) as [p|] eqn:Hp.
    + rewrite (ensureParentNode_found _ _ p) by exact Hp.
      split; [apply grows_attached|]. by intros r b' [= <- _].
    + rewrite ensureParentNode_missing by exact Hp.
      destruct (IH (registered (Path (Some pp) k) b)) as [Hg _].
      pose proof (grows_registered pp (registered (Path (Some pp) k) b)) as Hr.
      destruct (newNode pp (registered (Path (Some pp) k) b)) as [parent b3|e b3];
        simpl in *.
      * split; [|by intros r b' [= <- _]].
        eapply grows_trans; [|apply grows_attached].
        by eapply grows_trans.
      * split; [by eapply grows_trans|done].
Qed.

Lemma newNode_frame path b :
  grows b (final_state (newNode path b)).
Proof.
  eapply grows_trans; [apply grows_registered|]. apply newNode_grows.
Qed.

Lemma roundToDouble_exact x : Z.abs x < 2 ^ 53 → roundToDouble x = x.
Proof.
  intros Hx. unfold roundToDouble. cbv zeta.
  by rewrite (proj2 (Z.ltb_lt _ _) Hx).
Qed.

(** Below 2^53 nanoseconds the elapsed time is computed exactly. *)
Lemma hrtime_elapsed now t0 :
  reading t0 → reading now →
  0 ≤ nanoseconds now - nanoseconds t0 < 2 ^ 53 →
  durationHrTimeToNanos (process_hrtime now (Some t0))
  = nanoseconds now - nanoseconds t0.
Proof.
  unfold durationHrTimeToNanos, process_hrtime, nanoseconds, reading.
  destruct now as [s n], t0 as [s0 n0]. cbn [fst snd].
  change (2 ^ 53) with 9007199254740992. intros [? ?] [? ?] [? ?].
  destruct (n - n0 <? 0) eqn:Hb; cbn [fst snd].
  - apply Z.ltb_lt in Hb.
    rewrite (roundToDouble_exact ((s - s0 - 1) * 1000000000))
      by (change (2 ^ 53) with 9007199254740992; lia).
    rewrite roundToDouble_exact by (change (2 ^ 53) with 9007199254740992; lia).
    lia.
  - apply Z.ltb_ge in Hb.
    rewrite (roundToDouble_exact ((s - s0) * 1000000000))
      by (change (2 ^ 53) with 9007199254740992; lia).
    rewrite roundToDouble_exact by (change (2 ^ 53) with 9007199254740992; lia).
    lia.
Qed.

(** What [willResolveField] leaves behind when it got past its two checks:
    the state of [newNode], and on return the three assignments to the new
    node. *)
Lemma willResolveField_started info now b t0 :
  startHrTime b = Some t0 → stopped b = false →
  willResolveField info now b =
  match newNode (info_path info) b with
  | Return node b1 =>
      Return node
        (set_heap
           (alter (set_startTime (durationHrTimeToNanos (process_hrtime now (Some t0))))
              node
              (alter (set_parentType (info_parentType info)) node
                 (alter (set_type (returnType info)) node (heap b1)))) b1)
  | Throw e b1 => Throw e b1
  end.
Proof.
  intros Ht Hs. unfold willResolveField. run_js. rewrite Ht, Hs.
  by destruct (newNode (info_path info) b).
Qed.

Lemma perform_grows_node b c i n :
  heap b !! i = Some n →
  ∃ n', heap (perform b c) !! i = Some n' ∧ extends n n'.
Proof.
  intros Hn. destruct c as [now|info now|node now|path err|now]; simpl.
  - unfold startTiming. run_js.
    destruct (startHrTime b), (stopped b); simpl; eauto using extends_refl.
  - destruct (startHrTime b) as [t0|] eqn:Ht.
    2:{ unfold willResolveField. run_js. rewrite Ht. simpl. eauto using extends_refl. }
    destruct (stopped b) eqn:Hs.
    { unfold willResolveField. run_js. rewrite Ht, Hs. simpl. eauto using extends_refl. }
    rewrite (willResolveField_started _ _ _ _ Ht Hs).
    pose proof (newNode_frame (info_path info) b) as (_&_&_&Hg).
    destruct (newNode_grows (info_path info) b) as [_ Hr].
    destruct (Hg i n Hn) as (n' & Hn' & He & _).
    destruct (newNode (info_path info) b) as [node b1|e b1]; simpl in *; [|eauto].
    rewrite (Hr node b1 eq_refl).
    pose proof (lookup_lt_Some _ _ _ Hn) as Hlt.
    exists n'. split; [|done]. by rewrite !list_lookup_alter_ne by lia.
  - eexists. split; [by apply alter_lookup_of|].
    case_decide; [|apply extends_refl]. by repeat split.
  - unfold addError. run_js.
    destruct (startHrTime b), (stopped b); simpl; eauto using extends_refl.
    eexists. split; [by apply alter_lookup_of|].
    case_decide; [|apply extends_refl].
    repeat split; try done. simpl. by apply prefix_app_r.
  - unfold stopTiming. run_js.
    destruct (startHrTime b), (stopped b); simpl; eauto using extends_refl.
Qed.

Lemma perform_all_grows_node calls : ∀ b i n,
  heap b !! i = Some n →
  ∃ n', heap (perform_all b calls) !! i = Some n' ∧ extends n n'.
Proof.
  induction calls as [|c calls IH]; intros b i n Hn.
  - exists n. split; [done|]. apply extends_refl.
  - destruct (perform_grows_node b c i n Hn) as (n1 & Hn1 & He1).
    destruct (IH _ _ _ Hn1) as (n2 & Hn2 & He2).
    exists n2. split; [done|]. exact (extends_trans _ _ _ He1 He2).
Qed.

(** X1.  No call ever removes or rewrites what a node holds, on any
    builder and for any calls: a node of the store stays at its place with
    its segment, its two types and its start offset, and its child list
    and its error list only get entries appended after those they had. *)
Theorem nodes_are_only_extended (b : Builder) (calls : list Call) (i : ref) (n : Node) :
  heap b !! i = Some n →
  ∃ n', heap (perform_all b calls) !! i = Some n'
        ∧ fieldName n' = fieldName n ∧ index n' = index n
        ∧ type n' = type n ∧ parentType n' = parentType n
        ∧ startTime n' = startTime n
        ∧ child n `prefix_of` child n' ∧ error n `prefix_of` error n'.
Proof. apply perform_all_grows_node. Qed.

Lemma perform_frame b c :
  rootNode (perform b c) = rootNode b
  ∧ match c with
    | CallStartTiming _ | CallStopTiming _ => True
    | _ => startHrTime (perform b c) = startHrTime b
           ∧ stopped (perform b c) = stopped b
    end.
Proof.
  destruct c as [now|info now|node now|path err|now]; simpl.
  - unfold startTiming. run_js. by destruct (startHrTime b), (stopped b).
  - destruct (startHrTime b) as [t0|] eqn:Ht.
    2:{ unfold willResolveField. run_js. by rewrite Ht. }
    destruct (stopped b) eqn:Hs.
    { unfold willResolveField. run_js. by rewrite Ht, Hs. }
    rewrite (willResolveField_started _ _ _ _ Ht Hs).
    pose proof (newNode_frame (info_path info) b) as (H1&H2&H3&_).
    destruct (newNode (info_path info) b); simpl in *;
      (split; [exact H3|split; [by rewrite H1|by rewrite H2]]).
  - done.
  - unfold addError. run_js.
    by destruct (startHrTime b) eqn:Ht, (stopped b) eqn:Hs.
  - unfold stopTiming. run_js. by destruct (startHrTime b), (stopped b).
Qed.

Lemma perform_phase b c : (rank (phase b) ≤ rank (phase (perform b c)))%nat.
Proof.
  destruct c as [now|info now|node now|path err|now].
  - simpl. unfold startTiming, phase. run_js.
    destruct (startHrTime b) eqn:Ht, (stopped b) eqn:Hs; simpl;
      rewrite ?Ht, ?Hs; simpl; lia.
  - destruct (perform_frame b (CallWillResolveField info now)) as [_ [H1 H2]].
    unfold phase. by rewrite H1, H2.
  - done.
  - destruct (perform_frame b (CallAddError path err)) as [_ [H1 H2]].
    unfold phase. by rewrite H1, H2.
  - simpl. unfold stopTiming, phase. run_js.
    destruct (startHrTime b) eqn:Ht, (stopped b) eqn:Hs; simpl;
      rewrite ?Ht, ?Hs; simpl; lia.
Qed.

(** X2.  The lifecycle of a builder never goes back: whatever calls are
    made, returning or throwing, the phase after them is the phase before
    or a later one in Not-Started, Started, Stopped. *)
Theorem phase_never_goes_back (b : Builder) (calls : list Call) :
  (rank (phase b) ≤ rank (phase (perform_all b calls)))%nat.
Proof.
  revert b. induction calls as [|c calls IH]; intros b; [done|].
  etrans; [apply (perform_phase b c)|]. apply IH.
Qed.

Lemma perform_all_root calls : ∀ b, rootNode (perform_all b calls) = rootNode b.
Proof.
  induction calls as [|c calls IH]; intros b; [done|].
  simpl. unfold perform_all in IH. rewrite IH. apply perform_frame.
Qed.

(** X3.  The root node is created by the constructor and never replaced:
    on a builder reached by any calls with valid response keys, [rootNode]
    is still the node of the constructor, it is still the node registered
    under the empty path, and it still records neither a field name nor
    an index. *)
Theorem root_is_never_replaced (calls : list Call) :
  Forall (λ p, valid_path p = true) (started_paths calls) →
  let b := perform_all new_Builder calls in
  rootNode b = rootNode new_Builder
  ∧ nodes b !! rootResponsePath = Some (rootNode b)
  ∧ ∃ root, heap b !! rootNode b = Some root
            ∧ fieldName root = None ∧ index root = None.
Proof.
  intros Hvalid b. split; [apply perform_all_root|]. split.
  - apply perform_all_keeps_root; [done|]. reflexivity.
  - destruct (perform_all_grows_node calls new_Builder 0%nat new_Node eq_refl)
      as (root & Hroot & Hf & Hi & _).
    exists root. subst b. rewrite perform_all_root. simpl. done.
Qed.

Lemma perform_stopped b c :
  stopped b = true →
  stopped (perform b c) = true
  ∧ nodes (perform b c) = nodes b
  ∧ startHrTime (perform b c) = startHrTime b
  ∧ length (heap (perform b c)) = length (heap b)
  ∧ ∀ i n, heap b !! i = Some n →
      ∃ n', heap (perform b c) !! i = Some n' ∧ same_but_endTime n n'.
Proof.
  intros Hs.
  assert (∀ i n, heap b !! i = Some n →
            ∃ n', heap b !! i = Some n' ∧ same_but_endTime n n') as Hsame.
  { intros i n Hn. exists n. split; [done|]. by repeat split. }
  destruct c as [now|info now|node now|path err|now]; simpl.
  - unfold startTiming. run_js. rewrite Hs.
    destruct (startHrTime b) eqn:Ht; simpl; rewrite ?Ht, ?Hs; split_and!; auto.
  - unfold willResolveField. run_js. rewrite Hs.
    destruct (startHrTime b) eqn:Ht; simpl; rewrite ?Ht, ?Hs; split_and!; auto.
  - rewrite length_alter. split_and!; try done.
    intros i n Hn. eexists. split; [by apply alter_lookup_of|].
    case_decide; by repeat split.
  - unfold addError. run_js. rewrite Hs.
    destruct (startHrTime b) eqn:Ht; simpl; rewrite ?Ht, ?Hs; split_and!; auto.
  - unfold stopTiming. run_js. rewrite Hs.
    destruct (startHrTime b) eqn:Ht; simpl; rewrite ?Ht, ?Hs; split_and!; auto.
Qed.

(** X4.  Once a builder is stopped, its tree is frozen up to end offsets:
    whatever calls follow, the map, the root, the number of nodes and, for
    every node, the segment, the types, the start offset, the children and
    the errors stay what they were when it stopped; only the closures of
    fields still resolving write, each the end offset of its node. *)
Theorem stopped_tree_is_frozen (b : Builder) (calls : list Call) :
  stopped b = true →
  let b' := perform_all b calls in
  stopped b' = true
  ∧ nodes b' = nodes b ∧ rootNode b' = rootNode b
  ∧ length (heap b') = length (heap b)
  ∧ ∀ i n, heap b !! i = Some n →
      ∃ n', heap b' !! i = Some n'
            ∧ fieldName n' = fieldName n ∧ index n' = index n
            ∧ type n' = type n ∧ parentType n' = parentType n
            ∧ startTime n' = startTime n
            ∧ child n' = child n ∧ error n' = error n.
Proof.
  intros Hs b'. subst b'. split_and!.
  2,3,4,5: revert b Hs.
  - revert b Hs. induction calls as [|c calls IH]; intros b Hs; [done|].
    apply (IH (perform b c)). by apply perform_stopped.
  - induction calls as [|c calls IH]; intros b Hs; [done|].
    destruct (perform_stopped b c Hs) as (Hs' & Hn & _).
    simpl. unfold perform_all in IH. by rewrite IH, Hn.
  - intros b _. apply perform_all_root.
  - induction calls as [|c calls IH]; intros b Hs; [done|].
    destruct (perform_stopped b c Hs) as (Hs' & _ & _ & Hl & _).
    simpl. unfold perform_all in IH. by rewrite IH, Hl.
  - induction calls as [|c calls IH]; intros b Hs i n Hn.
    { exists n. split; [done|]. by repeat split. }
    destruct (perform_stopped b c Hs) as (Hs' & _ & _ & _ & Hnode).
    destruct (Hnode i n Hn) as (n1 & Hn1 & H1).
    destruct (IH _ Hs' i n1 Hn1) as (n2 & Hn2 & H2).
    exists n2. split; [exact Hn2|].
    destruct H1 as (?&?&?&?&?&?&?), H2 as (?&?&?&?&?&?&?).
    repeat split; congruence.
Qed.

Lemma willResolveField_node info now b node b' :
  willResolveField info now b = Return node b' →
  ∃ t0 n,
    startHrTime b = Some t0 ∧ stopped b = false
    ∧ startHrTime b' = Some t0
    ∧ node = length (heap b)
    ∧ heap b' !! node = Some n
    ∧ nodeKey n = Some (key (info_path info))
    ∧ type n = returnType info
    ∧ parentType n = info_parentType info
    ∧ startTime n = durationHrTimeToNanos (process_hrtime now (Some t0))
    ∧ endTime n = 0
    ∧ error n = [].
Proof.
  intros Hrun.
  destruct (startHrTime b) as [t0|] eqn:Ht.
  2:{ unfold willResolveField in Hrun. revert Hrun. run_js. by rewrite Ht. }
  destruct (stopped b) eqn:Hs.
  { unfold willResolveField in Hrun. revert Hrun. run_js. by rewrite Ht, Hs. }
  rewrite (willResolveField_started _ _ _ _ Ht Hs) in Hrun.
  destruct (newNode_grows (info_path info) b) as [Hg Hr].
  destruct (newNode (info_path info) b) as [r b1|e b1] eqn:Hnew; [|done].
  injection Hrun as <- <-. rewrite (Hr r b1 eq_refl) in *. simpl in Hg.
  destruct Hg as (Ht1 & _ & _ & Hnode).
  destruct (Hnode (length (heap b)) (keyedNode (key (info_path info))))
    as (n1 & Hn1 & (Hf & Hi & _) & He & Herr).
  { by apply list_lookup_middle. }
  exists t0, (set_startTime (durationHrTimeToNanos (process_hrtime now (Some t0)))
                (set_parentType (info_parentType info)
                   (set_type (returnType info) n1))).
  split_and!; try done.
  - simpl. by rewrite Ht1.
  - simpl. by rewrite !list_lookup_alter_eq, Hn1.
  - unfold nodeKey. simpl. rewrite Hf, Hi. apply nodeKey_keyedNode.
  - simpl. rewrite He. by destruct (key (info_path info)).
  - simpl. rewrite Herr. by destruct (key (info_path info)).
Qed.

(** X5.  Whenever [willResolveField] returns, on any builder, the node it
    returns is one that did not exist before, and it records the field:
    the last segment of the path ([fieldName] for a string, [index] for a
    number), the return type, the parent type, no end offset yet and no
    error.  Its start offset is the time since [startTiming] as
    [durationHrTimeToNanos] computes it in doubles: for readings of the
    clock less than 2^53 nanoseconds apart, the nanoseconds elapsed. *)
Theorem started_field_is_recorded (b b' : Builder) (info : ResolveInfo)
    (now : HrTime) (node : ref) :
  willResolveField info now b = Return node b' →
  ∃ t0 n,
    startHrTime b = Some t0
    ∧ node = length (heap b)
    ∧ heap b' !! node = Some n
    ∧ match key (info_path info) with
      | KString s => fieldName n = Some s ∧ index n = None
      | KNumber i => index n = Some i ∧ fieldName n = None
      end
    ∧ type n = returnType info
    ∧ parentType n = info_parentType info
    ∧ startTime n = durationHrTimeToNanos (process_hrtime now (Some t0))
    ∧ (reading t0 → reading now →
       0 ≤ nanoseconds now - nanoseconds t0 < 2 ^ 53 →
       startTime n = nanoseconds now - nanoseconds t0)
    ∧ endTime n = 0
    ∧ error n = [].
Proof.
  intros Hrun.
  destruct (willResolveField_node _ _ _ _ _ Hrun)
    as (t0 & n & Ht & _ & _ & Hnode & Hn & Hkey & Hty & Hpt & Hst & Hrest).
  exists t0, n. split_and!; try done; try apply Hrest.
  - by apply nodeKey_Some.
  - intros H0 H1 Hb. rewrite Hst. by apply hrtime_elapsed.
Qed.

Lemma perform_all_origin calls : ∀ b t0,
  startHrTime b = Some t0 → startHrTime (perform_all b calls) = Some t0.
Proof.
  induction calls as [|c calls IH]; intros b t0 Ht; [done|].
  apply (IH (perform b c)).
  destruct c as [now|info now|node now|path err|now].
  - simpl. unfold startTiming. run_js. by rewrite Ht.
  - destruct (perform_frame b (CallWillResolveField info now)) as [_ [H1 _]].
    by rewrite H1.
  - done.
  - destruct (perform_frame b (CallAddError path err)) as [_ [H1 _]].
    by rewrite H1.
  - simpl. unfold stopTiming. run_js. rewrite Ht. by destruct (stopped b).
Qed.

(** X6.  End offsets follow start offsets.  When [willResolveField] has
    returned a node at clock reading [now1], and after any further calls
    the closure of the node is called at a reading [now2] that is not
    earlier, less than 2^53 nanoseconds after [startTiming], the node ends
    up with an end offset that is at least its start offset, the
    difference being the time between the two readings. *)
Theorem end_offset_follows_start_offset (b b1 : Builder) (info : ResolveInfo)
    (t0 now1 now2 : HrTime) (node : ref) (calls : list Call) :
  willResolveField info now1 b = Return node b1 →
  startHrTime b = Some t0 →
  reading t0 → reading now1 → reading now2 →
  nanoseconds t0 ≤ nanoseconds now1 ≤ nanoseconds now2 →
  nanoseconds now2 - nanoseconds t0 < 2 ^ 53 →
  let b3 := final_state (endHandler node now2 (perform_all b1 calls)) in
  ∃ n, heap b3 !! node = Some n
       ∧ endTime n - startTime n = nanoseconds now2 - nanoseconds now1
       ∧ startTime n ≤ endTime n.
Proof.
  intros Hrun Ht0 Hr0 Hr1 Hr2 Hle Hbound b3.
  destruct (willResolveField_node _ _ _ _ _ Hrun)
    as (t0' & n1 & Ht & _ & Ht1 & _ & Hn1 & _ & _ & _ & Hstart & _).
  assert (t0' = t0) as -> by congruence.
  destruct (perform_all_grows_node calls b1 node n1 Hn1)
    as (n2 & Hn2 & (_ & _ & _ & _ & Hs2 & _)).
  pose proof (perform_all_origin calls b1 t0 Ht1) as Ht2.
  subst b3. rewrite endHandler_returns. cbn [final_state heap set_heap].
  rewrite list_lookup_alter_eq, Hn2, Ht2. cbn [fmap option_fmap option_map].
  eexists. split; [reflexivity|]. cbn [endTime startTime set_endTime].
  rewrite Hs2, Hstart, !hrtime_elapsed by (done || lia). lia.
Qed.

(** X7.  The dot-joined path string identifies the path: two paths with
    valid response keys have the same string only when they are the same
    path, and the string of such a path is never the empty string, under
    which the root is registered. *)
Theorem path_strings_identify_paths (p q : ResponsePath) :
  valid_path p = true → valid_path q = true →
  (responsePathAsString (Some p) = responsePathAsString (Some q) ↔ p = q)
  ∧ responsePathAsString (Some p) ≠ rootResponsePath.
Proof.
  intros Hp Hq. split.
  - split; [by apply responsePathAsString_inj|by intros ->].
  - by apply responsePathAsString_nonempty.
Qed.

End Growing.

Section GrowingSamples.
Import TreeBuilder Lifecycle Shape Growth.

Lemma nodes_are_only_extended_witness :
  ∃ n', heap (perform_all started_builder sample_calls) !! 1%nat = Some n'
        ∧ fieldName n' = Some "a" ∧ startTime n' = 500.
Proof.
  destruct (nodes_are_only_extended started_builder sample_calls 1%nat
              (mkNode (Some "a") None "String" "Query" 500 0 [] []))
    as (n' & Hn' & Hf & _ & _ & _ & Hs & _).
  - vm_compute. reflexivity.
  - exists n'. by rewrite Hf, Hs.
Defined.

Lemma root_is_never_replaced_witness :
  let b := perform_all new_Builder
             (CallStartTiming (10, 0) :: sample_calls ++ [CallStopTiming (11, 0)]) in
  rootNode b = 0%nat ∧ nodes b !! "" = Some 0%nat.
Proof.
  destruct (root_is_never_replaced
              (CallStartTiming (10, 0) :: sample_calls ++ [CallStopTiming (11, 0)]))
    as (Hr & Hn & _).
  - apply (bool_decide_unpack _). vm_compute. exact I.
  - intros b. subst b. split; [exact Hr|]. rewrite Hr in Hn. exact Hn.
Defined.

Lemma stopped_tree_is_frozen_witness :
  let b' := perform_all stopped_builder
              [CallWillResolveField (info_of path_a_b) (12, 0);
               CallAddError None sample_error; CallEndHandler 1%nat (12, 5)] in
  nodes b' = nodes stopped_builder
  ∧ length (heap b') = length (heap stopped_builder).
Proof.
  destruct (stopped_tree_is_frozen stopped_builder
              [CallWillResolveField (info_of path_a_b) (12, 0);
               CallAddError None sample_error; CallEndHandler 1%nat (12, 5)])
    as (_ & Hn & _ & Hl & _).
  - vm_compute. reflexivity.
  - split; [exact Hn|exact Hl].
Defined.

Lemma started_field_is_recorded_witness :
  ∃ n, heap (perform started_builder (CallWillResolveField (info_of path_a_b_0) (10, 900)))
         !! 2%nat = Some n
       ∧ index n = Some 0%N ∧ fieldName n = None
       ∧ type n = "String" ∧ startTime n = 900.
Proof.
  destruct (started_field_is_recorded started_builder
              (perform started_builder (CallWillResolveField (info_of path_a_b_0) (10, 900)))
              (info_of path_a_b_0) (10, 900) 2%nat)
    as (t0 & n & Ht & _ & Hn & [Hi Hf] & Hty & _ & Hs & _).
  - vm_compute. reflexivity.
  - exists n. split; [exact Hn|]. split; [exact Hi|]. split; [exact Hf|].
    split; [exact Hty|]. rewrite Hs.
    assert (t0 = (10, 0)) as -> by (vm_compute in Ht; congruence).
    reflexivity.
Defined.

Lemma end_offset_follows_start_offset_witness :
  let b1 := perform started_builder (CallWillResolveField (info_of path_a_b) (10, 900)) in
  let b3 := final_state
              (endHandler 2%nat (11, 100)
                 (perform_all b1 [CallAddError None sample_error])) in
  ∃ n, heap b3 !! 2%nat = Some n
       ∧ endTime n - startTime n = 999999200 ∧ startTime n ≤ endTime n.
Proof.
  intros b1 b3.
  destruct (end_offset_follows_start_offset started_builder b1 (info_of path_a_b)
              (10, 0) (10, 900) (11, 100) 2%nat [CallAddError None sample_error])
    as (n & Hn & Hd & Hle).
  - vm_compute. reflexivity.
  - vm_compute. reflexivity.
  - unfold reading. simpl. lia.
  - unfold reading. simpl. lia.
  - unfold reading. simpl. lia.
  - unfold nanoseconds. simpl. lia.
  - unfold nanoseconds. simpl. lia.
  - exists n. split; [exact Hn|]. split; [|exact Hle]. rewrite Hd. reflexivity.
Defined.

Lemma path_strings_identify_paths_witness :
  responsePathAsString (Some path_a_b) ≠ responsePathAsString (Some path_a_b_0).
Proof.
  destruct (path_strings_identify_paths path_a_b path_a_b_0) as [[H _] _].
  - reflexivity.
  - reflexivity.
  - intros Heq. apply H in Heq. discriminate.
Defined.

End GrowingSamples.

(* ===================================================================== *)
(** ** Further properties of the extension *)
(* ===================================================================== *)

Section RequestBehaviour.
Import Extension Lifecycle.
Context {Nodes Source Original Extensions DocumentNode : Type}.

Local Abbreviation Ext :=
  (@EngineReportingExtension Extensions DocumentNode).
Local Abbreviation Options :=
  (@EngineReportingOptions Extensions DocumentNode).
Local Abbreviation Start := (@RequestDidStart DocumentNode).
Local Abbreviation Context := (@RequestContext DocumentNode).

(** X8.  [dateToTimestamp] loses nothing: seconds and nanoseconds add up
    to the milliseconds of the date, the nanoseconds are whole
    milliseconds of less than a second, and they are negative only for a
    date before the epoch. *)
Theorem dateToTimestamp_exact (totalMillis : Z) :
  seconds (dateToTimestamp totalMillis) * 1000000000
    + nanos (dateToTimestamp totalMillis) = totalMillis * 1000000
  ∧ -1000000000 < nanos (dateToTimestamp totalMillis) < 1000000000
  ∧ nanos (dateToTimestamp totalMillis) `mod` 1000000 = 0
  ∧ (0 ≤ totalMillis →
       0 ≤ nanos (dateToTimestamp totalMillis)
       ∧ seconds (dateToTimestamp totalMillis) = totalMillis `div` 1000).
Proof.
  unfold dateToTimestamp. simpl.
  pose proof (Z.rem_bound_abs totalMillis 1000 ltac:(lia)) as Habs.
  pose proof (Z.quot_rem' totalMillis 1000) as Hqr.
  set (r := Z.rem totalMillis 1000) in *.
  assert ((totalMillis - r) `div` 1000 = totalMillis ÷ 1000) as ->.
  { replace (totalMillis - r) with ((totalMillis ÷ 1000) * 1000) by lia.
    by apply Z.div_mul. }
  split_and!; try lia.
  - by apply Z.mod_mul.
  - intros Hpos. subst r. rewrite Z.rem_mod_nonneg by lia.
    rewrite Z.quot_div_nonneg by lia.
    pose proof (Z.mod_pos_bound totalMillis 1000 ltac:(lia)). lia.
Qed.

Lemma requestDidStart_state (e : Ext) (o : Start) ms hr :
  phase (treeBuilder e) = NotStarted →
  requestDidStart o ms hr e =
  Return tt
    (mkExtension (startedTrace (options e) o ms (trace e))
       (TreeBuilder.set_startHrTime (Some hr) (treeBuilder e))
       (explicitOperationName e) (o_queryString o) (parsedQuery o) (options e)).
Proof.
  intros Hp. unfold phase in Hp.
  destruct (TreeBuilder.stopped (treeBuilder e)) eqn:Hs; [discriminate|].
  destruct (TreeBuilder.startHrTime (treeBuilder e)) eqn:Ht; [discriminate|].
  unfold requestDidStart. run_js.
  unfold onTrace, onTreeBuilder, TreeBuilder.startTiming. run_js.
  simpl. rewrite Ht, Hs. reflexivity.
Qed.

Lemma requestDidEnd_state (e : Ext) (o : Start) (rc : Context) hr ms t0 :
  TreeBuilder.startHrTime (treeBuilder e) = Some t0 →
  TreeBuilder.stopped (treeBuilder e) = false →
  requestDidEnd o rc hr ms e =
  let t := set_end
             (TreeBuilder.durationHrTimeToNanos (TreeBuilder.process_hrtime hr (Some t0)))
             (TreeBuilder.rootNode (treeBuilder e)) (dateToTimestamp ms)
             (truthy (responseCacheHit (metrics rc)))
             (truthy (forbiddenOperation_signal (metrics rc)))
             (truthy (registeredOperation_signal (metrics rc))) (trace e) in
  Return
    {| at_operationName :=
         or_empty (or_else (explicitOperationName e) (or_else (operationName rc) None));
       at_queryHash := queryHash (requestContext o);
       at_documentAST := match documentAST e with
                         | Some d => Some d
                         | None => document rc
                         end;
       at_queryString := or_empty (queryString e);
       at_trace := t |}
    (mkExtension t (TreeBuilder.set_stopped true (treeBuilder e))
       (explicitOperationName e) (queryString e) (documentAST e) (options e)).
Proof.
  intros Ht Hs. unfold requestDidEnd. run_js.
  unfold onTrace, onTreeBuilder, TreeBuilder.stopTiming. run_js.
  rewrite Ht, Hs. reflexivity.
Qed.


(** X9.  Client identification without a [generateClientInfo] option.
    When the request carries a non-empty value for one of the three client
    headers, name, version and reference id all come from the headers, a
    missing one being the empty string, and the [clientInfo] extension of
    the request plays no part; otherwise they come from that extension, or
    are empty strings.  The [privateHeaders] option has no say in this. *)
Theorem default_client_identity (e : Ext) (o : Start) (nowMillis : Z)
    (nowHr : TreeBuilder.HrTime) :
  phase (treeBuilder e) = NotStarted →
  opt_generateClientInfo (options e) = None →
  ∃ e',
    requestDidStart o nowMillis nowHr e = Return tt e'
    ∧ let header key := rc_http_headers (requestContext o) ≫= (λ hs, hs !! key) in
      let extension := rc_extensions_clientInfo (requestContext o) in
      if nonempty (header clientNameHeaderKey)
         || nonempty (header clientVersionHeaderKey)
         || nonempty (header clientReferenceIdHeaderKey)
      then clientName (trace e') = or_empty (header clientNameHeaderKey)
           ∧ clientVersion (trace e') = or_empty (header clientVersionHeaderKey)
           ∧ clientReferenceId (trace e') = or_empty (header clientReferenceIdHeaderKey)
      else clientName (trace e') = or_empty (extension ≫= ci_clientName)
           ∧ clientVersion (trace e') = or_empty (extension ≫= ci_clientVersion)
           ∧ clientReferenceId (trace e') = or_empty (extension ≫= ci_clientReferenceId).
Proof.
  intros Hp Hgen. eexists. split; [by apply requestDidStart_state|].
  cbn [trace]. unfold startedTrace, recordClientInfo. rewrite Hgen. cbn [default].
  unfold defaultGenerateClientInfo.
  destruct (rc_http_headers (requestContext o)) as [hs|]; cbn [mbind option_bind].
  - destruct (nonempty (hs !! clientNameHeaderKey)
              || nonempty (hs !! clientVersionHeaderKey)
              || nonempty (hs !! clientReferenceIdHeaderKey)); [done|].
    by destruct (rc_extensions_clientInfo (requestContext o)).
  - cbn [nonempty orb]. by destruct (rc_extensions_clientInfo (requestContext o)).
Qed.

Lemma phase_NotStarted (b : TreeBuilder.Builder) :
  phase b = NotStarted →
  TreeBuilder.startHrTime b = None ∧ TreeBuilder.stopped b = false.
Proof.
  unfold phase. destruct (TreeBuilder.stopped b); [done|].
  by destruct (TreeBuilder.startHrTime b).
Qed.

Lemma executionDidStart_state (e : Ext) (name : option string) (doc : DocumentNode) :
  executionDidStart name doc e =
  Return tt
    (mkExtension (trace e) (treeBuilder e)
       (if nonempty name then name else explicitOperationName e)
       (queryString e) (Some doc) (options e)).
Proof.
  unfold executionDidStart. run_js. by destruct (nonempty name).
Qed.

Lemma or_empty_or_else (a b : option string) :
  or_empty (or_else a (or_else b None))
  = if nonempty a then or_empty a else or_empty b.
Proof.
  unfold or_else. destruct (nonempty a); [done|].
  destruct b as [s|]; [|done]. simpl.
  case_bool_decide; simpl; [by subst|done].
Qed.

(** X10.  What the end handler reports for a request that reached
    execution.  The document is the one execution started with, whatever
    [requestDidStart] was given and whatever the pipeline stored; the
    query string and the query hash are the ones of [requestDidStart];
    the operation name is the one given to execution when that is a
    non-empty string, else a name this extension saved before, else the
    name the pipeline stored, else the empty string. *)
Theorem executed_operation_is_reported (e : Ext) (o : Start) (rc : Context)
    (name : option string) (doc : DocumentNode)
    (nowMillis endMillis : Z) (nowHr endHr : TreeBuilder.HrTime) :
  phase (treeBuilder e) = NotStarted →
  ∃ e1 e2 e3 args,
    requestDidStart o nowMillis nowHr e = Return tt e1
    ∧ executionDidStart name doc e1 = Return tt e2
    ∧ requestDidEnd o rc endHr endMillis e2 = Return args e3
    ∧ at_documentAST args = Some doc
    ∧ at_queryString args = or_empty (o_queryString o)
    ∧ at_queryHash args = queryHash (requestContext o)
    ∧ at_operationName args =
        (if nonempty name then or_empty name
         else if nonempty (explicitOperationName e)
              then or_empty (explicitOperationName e)
              else or_empty (operationName rc)).
Proof.
  intros Hp. eexists _, _, _, _.
  split; [by apply requestDidStart_state|].
  split; [apply executionDidStart_state|].
  split.
  { eapply requestDidEnd_state; [reflexivity|]. simpl. by apply phase_NotStarted. }
  cbn [at_documentAST at_queryString at_queryHash at_operationName
       documentAST queryString explicitOperationName].
  split_and!; try done.
  rewrite or_empty_or_else. by destruct (nonempty name) eqn:Hn; rewrite ?Hn.
Qed.

(** X11.  What the end handler reports for a request that never reached
    execution: the document that [requestDidStart] was given when there
    was one, else the one the pipeline stored, if any; and as operation
    name what this extension saved before, else the name the pipeline
    stored, else the empty string. *)
Theorem unexecuted_operation_is_reported (e : Ext) (o : Start) (rc : Context)
    (nowMillis endMillis : Z) (nowHr endHr : TreeBuilder.HrTime) :
  phase (treeBuilder e) = NotStarted →
  ∃ e1 e2 args,
    requestDidStart o nowMillis nowHr e = Return tt e1
    ∧ requestDidEnd o rc endHr endMillis e1 = Return args e2
    ∧ at_documentAST args
      = match parsedQuery o with
        | Some d => Some d
        | None => document rc
        end
    ∧ at_queryString args = or_empty (o_queryString o)
    ∧ at_queryHash args = queryHash (requestContext o)
    ∧ at_operationName args =
        (if nonempty (explicitOperationName e) then or_empty (explicitOperationName e)
         else or_empty (operationName rc)).
Proof.
  intros Hp. eexists _, _, _.
  split; [by apply requestDidStart_state|].
  split.
  { eapply requestDidEnd_state; [reflexivity|]. simpl. by apply phase_NotStarted. }
  cbn [at_documentAST at_queryString at_queryHash at_operationName
       documentAST queryString explicitOperationName].
  split_and!; try done. apply or_empty_or_else.
Qed.

Lemma set_treeBuilder_same (e : Ext) : set_treeBuilder (treeBuilder e) e = e.
Proof. by destruct e. Qed.

(** X12.  The end handler runs once.  After a call of it that returned,
    every further call, of this handler or of the one of another
    [requestDidStart], throws "stopTiming called twice!" before it writes
    anything: the extension is left as it was and nothing is handed to
    [addTrace]. *)
Theorem end_handler_runs_once (e e' : Ext) (o o' : Start) (rc rc' : Context)
    (endMillis endMillis' : Z) (endHr endHr' : TreeBuilder.HrTime)
    (args : AddTraceArgs) :
  requestDidEnd o rc endHr endMillis e = Return args e' →
  requestDidEnd o' rc' endHr' endMillis' e'
  = Throw (Error "stopTiming called twice!") e'.
Proof.
  intros Hrun.
  assert (∃ t0, TreeBuilder.startHrTime (treeBuilder e') = Some t0
                ∧ TreeBuilder.stopped (treeBuilder e') = true) as (t0 & Ht & Hs).
  { revert Hrun. unfold requestDidEnd. run_js.
    unfold onTrace, onTreeBuilder, TreeBuilder.stopTiming. run_js.
    destruct (TreeBuilder.startHrTime (treeBuilder e)) as [t0|] eqn:Ht; [|done].
    destruct (TreeBuilder.stopped (treeBuilder e)) eqn:Hs; [done|].
    intros [= _ <-]. exists t0. simpl. by rewrite Ht. }
  unfold requestDidEnd. run_js.
  unfold onTrace, onTreeBuilder, TreeBuilder.stopTiming. run_js.
  rewrite Ht, Hs. by rewrite set_treeBuilder_same.
Qed.

(** X13.  A second [requestDidStart].  On an extension whose builder was
    started, [requestDidStart] throws "startTiming called twice!", but
    only after it has overwritten the start time of the trace: that is
    the one change it leaves behind, the query string, the document, the
    headers and the variables recorded before being untouched. *)
Theorem second_start_overwrites_start_time (e : Ext) (o : Start) (nowMillis : Z)
    (nowHr t0 : TreeBuilder.HrTime) :
  TreeBuilder.startHrTime (treeBuilder e) = Some t0 →
  requestDidStart o nowMillis nowHr e
  = Throw (Error "startTiming called twice!")
      (set_trace (set_startTime (Some (dateToTimestamp nowMillis)) (trace e)) e).
Proof.
  intros Ht. unfold requestDidStart. run_js.
  unfold onTrace, onTreeBuilder, TreeBuilder.startTiming. run_js.
  simpl. rewrite Ht. by destruct e.
Qed.

End RequestBehaviour.

Section ErrorBehaviour.
Import Extension Lifecycle Requests.
Context {Nodes Source Original Extensions DocumentNode : Type}.
Variable getLocations :
  option Nodes → option Source → option (list Z) → option (list TreeBuilder.Location).
Variable GraphQLError_json : string → option (list TreeBuilder.Location) →
  option (list Key) → option Extensions → string.

Local Abbreviation Ext :=
  (@EngineReportingExtension Extensions DocumentNode).
Local Abbreviation Start := (@RequestDidStart DocumentNode).
Local Abbreviation Context := (@RequestContext DocumentNode).
Local Abbreviation GError := (@GraphQLError Nodes Source Original Extensions).
Local Abbreviation Pipeline :=
  (@PipelineCall Nodes Source Original Extensions DocumentNode).
Local Abbreviation Reportable :=
  (@GraphQLErrorOrMaskedErrorObject Nodes Source Original Extensions).
Local Abbreviation reportable opts :=
  (omap (rewriteError (DocumentNode := DocumentNode) getLocations opts)).
Local Abbreviation report := (didEncounterErrors getLocations GraphQLError_json).

Lemma didEncounterErrors_cons (err : GError) (rest : list GError) (e : Ext) :
  report (err :: rest) e =
  match rewriteError getLocations (options e) err with
  | None => report rest e
  | Some r =>
      match addError getLocations GraphQLError_json r e with
      | Return _ e1 => report rest e1
      | Throw x e1 => Throw x e1
      end
  end.
Proof.
  cbn [didEncounterErrors]. run_js. by destruct (rewriteError _ _ _).
Qed.

(** X15.  Errors can be reported in batches: one call of
    [didEncounterErrors] with a list is the call with its first part
    followed, unless that threw, by the call with the rest. *)
Theorem errors_reported_in_batches (xs ys : list GError) (e : Ext) :
  didEncounterErrors getLocations GraphQLError_json (xs ++ ys) e
  = (didEncounterErrors getLocations GraphQLError_json xs;;
     didEncounterErrors getLocations GraphQLError_json ys) e.
Proof.
  revert e. induction xs as [|x xs IH]; intros e; [done|].
  cbn [app]. rewrite didEncounterErrors_cons.
  change ((report (x :: xs);; report ys) e)
    with (match report (x :: xs) e with
          | Return _ e1 => report ys e1
          | Throw ex e1 => Throw ex e1
          end).
  rewrite didEncounterErrors_cons.
  destruct (rewriteError _ _ _) as [r|].
  - destruct (addError _ _ r e) as [[] e1|ex e1]; [|done]. by rewrite IH.
  - by rewrite IH.
Qed.

Lemma addError_started (r : Reportable) (e : Ext) t0 :
  TreeBuilder.startHrTime (treeBuilder e) = Some t0 →
  TreeBuilder.stopped (treeBuilder e) = false →
  addError getLocations GraphQLError_json r e
  = Return tt (set_treeBuilder
                 (perform (treeBuilder e) (addErrorCall getLocations GraphQLError_json r)) e).
Proof.
  intros Ht Hs. unfold addError, onTreeBuilder, addErrorCall, perform.
  unfold TreeBuilder.addError. run_js. by rewrite Ht, Hs.
Qed.

Lemma addError_outside (r : Reportable) (e : Ext) :
  phase (treeBuilder e) ≠ Started →
  addError getLocations GraphQLError_json r e
  = Throw (Error (if TreeBuilder.startHrTime (treeBuilder e) is Some _
                  then "addError called after stopTiming!"
                  else "addError called before startTiming!")) e.
Proof.
  intros Hp. unfold addError, onTreeBuilder, TreeBuilder.addError. run_js.
  unfold phase in Hp.
  destruct (TreeBuilder.startHrTime (treeBuilder e));
    destruct (TreeBuilder.stopped (treeBuilder e)); try done;
    by destruct e.
Qed.

Lemma perform_addError_started b path err t0 :
  TreeBuilder.startHrTime b = Some t0 → TreeBuilder.stopped b = false →
  perform b (CallAddError path err)
  = TreeBuilder.set_heap
      (alter (TreeBuilder.push_error err) (errorNode b path) (TreeBuilder.heap b)) b.
Proof.
  intros Ht Hs. unfold perform, TreeBuilder.addError, errorNode. run_js.
  rewrite Ht, Hs. cbn [final_state]. destruct path as [p|]; [|done].
  by destruct (TreeBuilder.nodes b !! join "." p).
Qed.

Lemma report_started (errors : list GError) : ∀ (e : Ext) t0,
  TreeBuilder.startHrTime (treeBuilder e) = Some t0 →
  TreeBuilder.stopped (treeBuilder e) = false →
  report errors e
  = Return tt
      (set_treeBuilder
         (perform_all (treeBuilder e)
            (addErrorCall getLocations GraphQLError_json <$> reportable (options e) errors)) e).
Proof.
  induction errors as [|err errors IH]; intros e t0 Ht Hs.
  { cbn. by destruct e. }
  rewrite didEncounterErrors_cons. cbn [omap list_omap].
  destruct (rewriteError getLocations (options e) err) as [r|]; [|by eapply IH].
  rewrite (addError_started r e t0 Ht Hs).
  set (b1 := perform (treeBuilder e) (addErrorCall getLocations GraphQLError_json r)).
  assert (TreeBuilder.startHrTime b1 = Some t0 ∧ TreeBuilder.stopped b1 = false)
    as [Ht1 Hs1].
  { destruct (perform_frame (treeBuilder e) (addErrorCall getLocations GraphQLError_json r))
      as [_ [H1 H2]]. subst b1. by rewrite H1, H2. }
  by rewrite (IH (set_treeBuilder b1 e) t0 Ht1 Hs1).
Qed.


Lemma addErrors_started (rs : list Reportable) : ∀ b t0,
  TreeBuilder.startHrTime b = Some t0 → TreeBuilder.stopped b = false →
  let b' := perform_all b (addErrorCall getLocations GraphQLError_json <$> rs) in
  TreeBuilder.nodes b' = TreeBuilder.nodes b
  ∧ TreeBuilder.rootNode b' = TreeBuilder.rootNode b
  ∧ length (TreeBuilder.heap b') = length (TreeBuilder.heap b)
  ∧ TreeBuilder.startHrTime b' = TreeBuilder.startHrTime b
  ∧ TreeBuilder.stopped b' = TreeBuilder.stopped b
  ∧ ∀ i, TreeBuilder.heap b' !! i
         = push_errors
             (traceError getLocations GraphQLError_json
                <$> filter (λ r, errorNode b (eo_path r) = i) rs)
           <$> TreeBuilder.heap b !! i.
Proof.
  induction rs as [|r rs IH]; intros b t0 Ht Hs b'.
  { subst b'. cbn. split_and!; try done. intros i.
    by destruct (TreeBuilder.heap b !! i). }
  subst b'. cbn [fmap list_fmap perform_all foldl].
  set (b1 := perform b (addErrorCall getLocations GraphQLError_json r)).
  assert (b1 = TreeBuilder.set_heap
                 (alter (TreeBuilder.push_error (traceError getLocations GraphQLError_json r))
                    (errorNode b (eo_path r)) (TreeBuilder.heap b)) b) as Hb1.
  { by apply (perform_addError_started b _ _ t0). }
  destruct (IH b1 t0) as (Hn & Hr & Hl & Hst & Hsp & Hh).
  { by rewrite Hb1. }
  { by rewrite Hb1. }
  unfold perform_all in *. rewrite Hn, Hr, Hl, Hst, Hsp. rewrite Hb1 at 1 2 3 4 5.
  cbn [TreeBuilder.nodes TreeBuilder.rootNode TreeBuilder.heap TreeBuilder.set_heap
       TreeBuilder.startHrTime TreeBuilder.stopped].
  rewrite length_alter. split_and!; try done.
  intros i. rewrite Hh.
  assert (∀ p, errorNode b1 p = errorNode b p) as Hsame.
  { intros p. by rewrite Hb1. }
  rewrite (list_filter_iff _ (λ r0, errorNode b (eo_path r0) = i))
    by (intros; by rewrite Hsame).
  rewrite filter_cons. rewrite Hb1 at 1.
  cbn [TreeBuilder.heap TreeBuilder.set_heap].
  case_decide as Hi.
  - subst i. rewrite list_lookup_alter_eq.
    by destruct (TreeBuilder.heap b !! errorNode b (eo_path r)).
  - by rewrite list_lookup_alter_ne.
Qed.





Lemma errors_outside_window_aux (errors : list GError) (e : Ext) :
  phase (treeBuilder e) ≠ Started →
  report errors e =
  match reportable (options e) errors with
  | [] => Return tt e
  | _ :: _ =>
      Throw (Error (if TreeBuilder.startHrTime (treeBuilder e) is Some _
                    then "addError called after stopTiming!"
                    else "addError called before startTiming!")) e
  end.
Proof.
  intros Hp. induction errors as [|err errors IH]; [done|].
  rewrite didEncounterErrors_cons. cbn [omap list_omap].
  destruct (rewriteError getLocations (options e) err) as [r|]; [|exact IH].
  by rewrite addError_outside.
Qed.


Lemma final_onTreeBuilder {A} (m : M TreeBuilder.Builder A) (e : Ext) :
  final_state (onTreeBuilder m e) = set_treeBuilder (final_state (m (treeBuilder e))) e.
Proof. unfold onTreeBuilder. by destruct (m (treeBuilder e)). Qed.

Lemma report_frame (errors : list GError) (e : Ext) :
  ∃ b', final_state (report errors e) = set_treeBuilder b' e
        ∧ TreeBuilder.startHrTime b' = TreeBuilder.startHrTime (treeBuilder e)
        ∧ TreeBuilder.stopped b' = TreeBuilder.stopped (treeBuilder e)
        ∧ TreeBuilder.rootNode b' = TreeBuilder.rootNode (treeBuilder e).
Proof.
  destruct (decide (phase (treeBuilder e) = Started)) as [Hp|Hp].
  - unfold phase in Hp.
    destruct (TreeBuilder.stopped (treeBuilder e)) eqn:Hs; [discriminate|].
    destruct (TreeBuilder.startHrTime (treeBuilder e)) as [t0|] eqn:Ht; [|discriminate].
    rewrite (report_started errors e t0 Ht Hs). eexists. split; [reflexivity|].
    destruct (addErrors_started (reportable (options e) errors) (treeBuilder e) t0 Ht Hs)
      as (_ & Hr & _ & Hst & Hsp & _).
    by rewrite Hst, Hsp, Hr, Ht, Hs.
  - exists (treeBuilder e). rewrite (errors_outside_window_aux errors e Hp).
    split; [|done]. by destruct (reportable _ _), e.
Qed.

Lemma handle_frame (e : Ext) (c : Pipeline) :
  let e' := handle getLocations GraphQLError_json e c in
  trace e' = trace e ∧ options e' = options e ∧ queryString e' = queryString e
  ∧ TreeBuilder.startHrTime (treeBuilder e') = TreeBuilder.startHrTime (treeBuilder e)
  ∧ TreeBuilder.stopped (treeBuilder e') = TreeBuilder.stopped (treeBuilder e)
  ∧ TreeBuilder.rootNode (treeBuilder e') = TreeBuilder.rootNode (treeBuilder e).
Proof.
  destruct c as [name doc|info now|node now|errors]; cbn [handle].
  - by rewrite executionDidStart_state.
  - unfold willResolveField. rewrite final_onTreeBuilder.
    destruct (perform_frame (treeBuilder e) (CallWillResolveField info now))
      as (H1 & H2 & H3).
    by split_and!.
  - rewrite final_onTreeBuilder.
    destruct (perform_frame (treeBuilder e) (CallEndHandler node now))
      as (H1 & H2 & H3).
    by split_and!.
  - destruct (report_frame errors e) as (b' & -> & H1 & H2 & H3). by split_and!.
Qed.

Lemma handle_all_frame (calls : list Pipeline) : ∀ e : Ext,
  let e' := handle_all getLocations GraphQLError_json e calls in
  trace e' = trace e ∧ options e' = options e ∧ queryString e' = queryString e
  ∧ TreeBuilder.startHrTime (treeBuilder e') = TreeBuilder.startHrTime (treeBuilder e)
  ∧ TreeBuilder.stopped (treeBuilder e') = TreeBuilder.stopped (treeBuilder e)
  ∧ TreeBuilder.rootNode (treeBuilder e') = TreeBuilder.rootNode (treeBuilder e).
Proof.
  induction calls as [|c calls IH]; intros e; [done|].
  pose proof (IH (handle getLocations GraphQLError_json e c)) as IH'.
  pose proof (handle_frame e c) as Hc.
  unfold handle_all in *. cbn [foldl]. cbv zeta in *.
  destruct IH' as (->&->&->&->&->&->). exact Hc.
Qed.

Lemma startTime_startedTrace (opts : @EngineReportingOptions Extensions DocumentNode)
    (o : Start) ms t :
  startTime (startedTrace opts o ms t) = Some (dateToTimestamp ms).
Proof.
  unfold startedTrace, recordClientInfo, recordVariables, recordHeaders.
  destruct (truthy (persistedQueryHit_signal _));
    destruct (truthy (persistedQueryRegister_signal _));
    repeat first [case_decide | case_match]; done.
Qed.

(** X18.  The trace record is written at the two ends of the request
    only.  Whatever the pipeline calls in between (execution starting,
    fields resolving and ending, errors being reported), returning or
    throwing, the end handler returns, and the trace it hands over has
    the start time of [requestDidStart], the end time of the handler, as
    root the root node of the builder, and the headers, the variables and
    the client identity exactly as [requestDidStart] recorded them; the
    query string is the one of [requestDidStart].  Its duration is the
    time between the two readings of the monotonic clock as
    [durationHrTimeToNanos] computes it in doubles: for readings less
    than 2^53 nanoseconds apart, the nanoseconds between them. *)
Theorem trace_written_at_start_and_end (e : Ext) (o : Start) (rc : Context)
    (calls : list Pipeline) (nowMillis endMillis : Z)
    (nowHr endHr : TreeBuilder.HrTime) :
  phase (treeBuilder e) = NotStarted →
  ∃ e1 args e3,
    requestDidStart o nowMillis nowHr e = Return tt e1
    ∧ requestDidEnd o rc endHr endMillis
        (handle_all getLocations GraphQLError_json e1 calls) = Return args e3
    ∧ durationNs (at_trace args)
      = TreeBuilder.durationHrTimeToNanos (TreeBuilder.process_hrtime endHr (Some nowHr))
    ∧ (Growth.reading nowHr → Growth.reading endHr →
       0 ≤ Growth.nanoseconds endHr - Growth.nanoseconds nowHr < 2 ^ 53 →
       durationNs (at_trace args)
       = Growth.nanoseconds endHr - Growth.nanoseconds nowHr)
    ∧ root (at_trace args) = Some (TreeBuilder.rootNode (treeBuilder e))
    ∧ startTime (at_trace args) = Some (dateToTimestamp nowMillis)
    ∧ endTime (at_trace args) = Some (dateToTimestamp endMillis)
    ∧ http (at_trace args) = http (trace e1)
    ∧ details (at_trace args) = details (trace e1)
    ∧ clientName (at_trace args) = clientName (trace e1)
    ∧ clientVersion (at_trace args) = clientVersion (trace e1)
    ∧ clientReferenceId (at_trace args) = clientReferenceId (trace e1)
    ∧ at_queryString args = or_empty (o_queryString o).
Proof.
  intros Hp. destruct (phase_NotStarted _ Hp) as [_ Hs].
  eexists _, _, _. split; [by apply requestDidStart_state|].
  set (e1 := mkExtension _ _ _ _ _ _).
  destruct (handle_all_frame calls e1) as (Ht & _ & Hq & Hst & Hsp & Hr).
  subst e1. split.
  { eapply requestDidEnd_state; [by rewrite Hst|]. by rewrite Hsp. }
  cbn [at_trace at_queryString]. rewrite Ht, Hq, Hr.
  cbn [durationNs root startTime endTime http details clientName clientVersion
       clientReferenceId set_end].
  cbn [trace queryString treeBuilder].
  rewrite startTime_startedTrace. split_and!; try done.
  intros H0 H1 Hb. by apply hrtime_elapsed.
Qed.

End ErrorBehaviour.

Section RequestSamples.
Import Extension Lifecycle Samples Requests.

Lemma default_client_identity_witness :
  ∃ e',
    requestDidStart request_with_client 1000 (10, 0)
      (new_Extension (options_of (PrivateBool true) PrivateUnset false None))
    = Return tt e'
    ∧ clientName (trace e') = "web"
    ∧ clientVersion (trace e') = "1.0"
    ∧ clientReferenceId (trace e') = "".
Proof.
  destruct (default_client_identity
              (new_Extension (options_of (PrivateBool true) PrivateUnset false None))
              request_with_client 1000 (10, 0))
    as (e' & Hrun & H).
  { reflexivity. }
  { reflexivity. }
  exists e'. split; [exact Hrun|]. vm_compute in H. exact H.
Defined.

Lemma executed_operation_is_reported_witness :
  ∃ e1 e2 e3 args,
    requestDidStart request_with_client 1000 (10, 0)
      (new_Extension (options_of PrivateUnset PrivateUnset false None))
    = Return tt e1
    ∧ executionDidStart (Some "") "executed doc" e1 = Return tt e2
    ∧ requestDidEnd request_with_client context_with_client (11, 0) 2000 e2
      = Return args e3
    ∧ at_documentAST args = Some "executed doc"
    ∧ at_operationName args = "PipelineName".
Proof.
  destruct (executed_operation_is_reported
              (new_Extension (options_of PrivateUnset PrivateUnset false None))
              request_with_client context_with_client (Some "") "executed doc"
              1000 2000 (10, 0) (11, 0))
    as (e1 & e2 & e3 & args & H1 & H2 & H3 & Hd & _ & _ & Hn).
  { reflexivity. }
  exists e1, e2, e3, args. split; [exact H1|]. split; [exact H2|].
  split; [exact H3|]. split; [exact Hd|]. rewrite Hn. reflexivity.
Defined.

Lemma unexecuted_operation_is_reported_witness :
  ∃ e1 e2 args,
    requestDidStart request_with_client 1000 (10, 0)
      (new_Extension (options_of PrivateUnset PrivateUnset false None))
    = Return tt e1
    ∧ requestDidEnd request_with_client context_with_client (11, 0) 2000 e1
      = Return args e2
    ∧ at_documentAST args = Some "pipeline doc"
    ∧ at_operationName args = "PipelineName"
    ∧ at_queryString args = "{ a }".
Proof.
  destruct (unexecuted_operation_is_reported
              (new_Extension (options_of PrivateUnset PrivateUnset false None))
              request_with_client context_with_client 1000 2000 (10, 0) (11, 0))
    as (e1 & e2 & args & H1 & H2 & Hd & Hq & _ & Hn).
  { reflexivity. }
  exists e1, e2, args. split; [exact H1|]. split; [exact H2|].
  split; [exact Hd|]. split; [rewrite Hn; reflexivity|exact Hq].
Defined.

Lemma end_handler_runs_once_witness :
  let e := started_extension (options_of PrivateUnset PrivateUnset false None) in
  let o := request_of [] None all_true in
  ∃ args e',
    requestDidEnd o (requestContext o) (11, 0) 2000 e = Return args e'
    ∧ requestDidEnd o (requestContext o) (12, 0) 3000 e'
      = Throw (Js.Error "stopTiming called twice!") e'.
Proof.
  intros e o.
  destruct (requestDidEnd o (requestContext o) (11, 0) 2000 e) as [args e'|x e'] eqn:Hrun.
  - exists args, e'. split; [reflexivity|].
    exact (end_handler_runs_once e e' o o (requestContext o) (requestContext o)
             2000 3000 (11, 0) (12, 0) args Hrun).
  - vm_compute in Hrun. discriminate.
Defined.

Lemma second_start_overwrites_start_time_witness :
  let e := started_extension (options_of PrivateUnset PrivateUnset false None) in
  let outcome := requestDidStart request_with_client 5000 (20, 0) e in
  threw outcome = true
  ∧ startTime (trace e) = Some (mkTimestamp 1 0)
  ∧ startTime (trace (final_state outcome)) = Some (mkTimestamp 5 0)
  ∧ clientName (trace (final_state outcome)) = "".
Proof.
  intros e outcome. subst outcome.
  rewrite (second_start_overwrites_start_time e request_with_client 5000 (20, 0) (10, 0)).
  - split; [reflexivity|]. split; [vm_compute; reflexivity|].
    split; vm_compute; reflexivity.
  - vm_compute. reflexivity.
Defined.




Lemma trace_written_at_start_and_end_witness :
  let e1 := final_state
              (requestDidStart request_with_client 1000 (10, 0)
                 (new_Extension (options_of PrivateUnset PrivateUnset false None))) in
  ∃ args e3,
    requestDidEnd request_with_client context_with_client (11, 500) 2500
      (handle_all getLocations GraphQLError_json e1 sample_pipeline)
    = Return args e3
    ∧ durationNs (at_trace args) = 1000000500
    ∧ root (at_trace args) = Some 0%nat
    ∧ startTime (at_trace args) = Some (mkTimestamp 1 0)
    ∧ endTime (at_trace args) = Some (mkTimestamp 2 500000000)
    ∧ clientName (at_trace args) = "web".
Proof.
  intros e1.
  destruct (trace_written_at_start_and_end getLocations GraphQLError_json
              (new_Extension (options_of PrivateUnset PrivateUnset false None))
              request_with_client context_with_client sample_pipeline
              1000 2500 (10, 0) (11, 500))
    as (e1' & args & e3 & H1 & H2 & Hd & _ & Hr & Hs & He & _ & _ & Hc & _).
  { reflexivity. }
  assert (e1' = e1) as -> by (subst e1; by rewrite H1).
  exists args, e3. split; [exact H2|]. split; [rewrite Hd; reflexivity|].
  split; [exact Hr|]. split; [exact Hs|]. split; [exact He|].
  rewrite Hc. vm_compute. reflexivity.
Defined.

End RequestSamples.

(* ===================================================================== *)
(** ** Paths of fields and paths of errors *)
(* ===================================================================== *)

Section ErrorPaths.
Import TreeBuilder Lifecycle Shape Growth.

Lemma ancestors_shorter p : ∀ q,
  q ∈ ancestors p →
  (String.length (str (Some q)) ≤ String.length (str (Some p)))%nat.
Proof.
  induction p as [k|pp k IH] using ResponsePath_ind'; intros q Hq; simpl in Hq.
  - by apply list_elem_of_singleton in Hq as ->.
  - apply elem_of_cons in Hq as [->|Hq]; [done|].
    rewrite responsePathAsString_cons, !string_length_app.
    specialize (IH q Hq). lia.
Qed.

(** [newNode] registers nodes under the strings of the path and of its
    prefixes only. *)
Lemma newNode_nodes path : ∀ b key,
  (∀ q, q ∈ ancestors path → str (Some q) ≠ key) →
  nodes (final_state (newNode path b)) !! key = nodes b !! key.
Proof.
  induction path as [k|pp k IH] using ResponsePath_ind'; intros b key Hkey;
    rewrite newNode_eq.
  - assert (str (Some (Path None k)) ≠ key) as Hne by (apply Hkey; left).
    destruct (nodes (registered (Path None k) b) !! str None) as [p|] eqn:Hp.
    + rewrite (ensureParentNode_found _ _ p) by exact Hp.
      simpl. by rewrite lookup_insert_ne.
    + rewrite ensureParentNode_orphaned by exact Hp.
      simpl. by rewrite lookup_insert_ne.
  - assert (str (Some (Path (Some pp) k)) ≠ key) as Hne by (apply Hkey; left).
    assert (nodes (registered (Path (Some pp) k) b) !! key = nodes b !! key) as Hreg.
    { simpl. by rewrite lookup_insert_ne. }
    destruct (nodes (registered (Path (Some pp) k) b) !! str (Some pp)) as [p|] eqn:Hp.
    + by rewrite (ensureParentNode_found _ _ p) by exact Hp.
    + rewrite ensureParentNode_missing by exact Hp.
      specialize (IH (registered (Path (Some pp) k) b) key).
      rewrite <-Hreg, <-IH.
      * by destruct (newNode pp (registered (Path (Some pp) k) b)).
      * intros q Hq. apply Hkey. simpl. by right.
Qed.

Lemma newNode_registers path b node b' :
  newNode path b = Return node b' →
  nodes b' !! str (Some path) = Some node.
Proof.
  rewrite newNode_eq. destruct path as [[pp|] k].
  - destruct (nodes (registered (Path (Some pp) k) b) !! str (Some pp)) as [p|] eqn:Hp.
    + rewrite (ensureParentNode_found _ _ p) by exact Hp.
      intros [= <- <-]. simpl. by rewrite lookup_insert_eq.
    + rewrite ensureParentNode_missing by exact Hp.
      pose proof (newNode_nodes pp (registered (Path (Some pp) k) b)
                    (str (Some (Path (Some pp) k)))) as Hsame.
      destruct (newNode pp (registered (Path (Some pp) k) b)) as [parent b3|e b3];
        [|done].
      intros [= <- <-]. cbn [attached nodes set_heap]. cbn [final_state] in Hsame.
      rewrite Hsame.
      * simpl. by rewrite lookup_insert_eq.
      * intros q Hq%ancestors_shorter Heq. rewrite Heq in Hq.
        rewrite responsePathAsString_cons, !string_length_app in Hq.
        change (String.length ".") with 1%nat in Hq. lia.
  - destruct (nodes (registered (Path None k) b) !! str None) as [p|] eqn:Hp.
    + rewrite (ensureParentNode_found _ _ p) by exact Hp.
      intros [= <- <-]. simpl. by rewrite lookup_insert_eq.
    + by rewrite ensureParentNode_orphaned by exact Hp.
Qed.

(** X19.  The path of a field and the path of an error meet.  When
    [willResolveField] has returned a node, on any builder and for any
    path, an error reported next at the key array of that path is
    appended to the error list of that node, and of no other: the string
    under which [newNode] registered the node is the string [addError]
    looks up, and registering the missing ancestors of the path has not
    displaced it. *)
Theorem error_reaches_started_field (b b1 : Builder) (info : ResolveInfo)
    (now : HrTime) (node : ref) (err : TraceError) :
  willResolveField info now b = Return node b1 →
  ∃ n b2,
    heap b1 !! node = Some n
    ∧ addError (Some (responsePathAsArray (info_path info))) err b1 = Return tt b2
    ∧ heap b2 !! node = Some (push_error err n)
    ∧ (∀ other, other ≠ node → heap b2 !! other = heap b1 !! other)
    ∧ nodes b2 = nodes b1.
Proof.
  intros Hrun.
  destruct (willResolveField_node _ _ _ _ _ Hrun)
    as (t0 & n & Ht & Hs & Ht1 & _ & Hn & _).
  assert (stopped b1 = false) as Hs1.
  { destruct (perform_frame b (CallWillResolveField info now)) as [_ [_ H]].
    simpl in H. rewrite Hrun in H. simpl in H. by rewrite H. }
  assert (nodes b1 !! str (Some (info_path info)) = Some node) as Hreg.
  { rewrite (willResolveField_started _ _ _ _ Ht Hs) in Hrun.
    destruct (newNode (info_path info) b) as [r b0|e b0] eqn:Hnew; [|done].
    injection Hrun as <- <-. simpl. by apply (newNode_registers _ b). }
  exists n. eexists. split; [exact Hn|]. split.
  { unfold addError. run_js. rewrite Ht1, Hs1.
    change (join "." (responsePathAsArray (info_path info)))
      with (str (Some (info_path info))).
    rewrite Hreg. reflexivity. }
  simpl. split; [by rewrite list_lookup_alter_eq, Hn|].
  split; [|done]. intros other Hne. by rewrite list_lookup_alter_ne.
Qed.

End ErrorPaths.

Section ErrorPathSamples.
Import TreeBuilder Lifecycle Shape.

Lemma error_reaches_started_field_witness :
  let b1 := perform started_builder
              (CallWillResolveField (info_of path_a_b_0) (10, 900)) in
  ∃ b2, addError (Some [KString "a"; KString "b"; KNumber 0]) sample_error b1
        = Return tt b2
        ∧ (error <$> heap b2 !! 2%nat) = Some [sample_error]
        ∧ (error <$> heap b2 !! 0%nat) = Some [].
Proof.
  intros b1.
  destruct (error_reaches_started_field started_builder b1 (info_of path_a_b_0)
              (10, 900) 2%nat sample_error)
    as (n & b2 & Hn & Hrun & Hnode & Hother & _).
  { vm_compute. reflexivity. }
  exists b2. split; [exact Hrun|]. split.
  - rewrite Hnode. vm_compute in Hn. injection Hn as <-. reflexivity.
  - rewrite Hother by discriminate. vm_compute. reflexivity.
Defined.

End ErrorPathSamples.
